(** * arch-gen: workspace tree and dependency graph rendering

    A shallow embedding of the structural core of [src/index.ts] of
    tonik/arch-gen (the version carrying [createNodeTree]): the path tree
    builder, the tree renderer, the Mermaid identifier sanitizer, the
    dependency graph generator and the workspace project reader.

    Conventions.  A JavaScript string is a [string] of the bytes of its
    UTF-8 encoding; the operations used by the program ([split] on a slash,
    replacement of ASCII characters, concatenation, comparison) act the same
    way on either view.  Arrays are lists.  A [Map] and a [Set] are
    insertion-ordered lists without repeated keys.  A plain object used as
    a record keeps its own keys in the enumeration order of the language:
    array indices first, ascending, then the other keys as inserted. *)

From Stdlib Require Import String Ascii List Bool Arith NArith ZArith Lia.
Import ListNotations.

Local Open Scope string_scope.
Local Open Scope list_scope.

Infix "+++" := String.append (at level 60, right associativity).

(** ** Characters the program writes *)

Definition nl : string := String "010"%char "".
Definition dquote : string := String "034"%char "".
Definition fence : string := "```".

(** ** String primitives of the language *)

Module Js.

(** [s.split(sep)] for a one-character separator: never the empty list. *)
Fixpoint split (sep : ascii) (s : string) : list string :=
  match s with
  | EmptyString => [EmptyString]
  | String c rest =>
      if Ascii.eqb c sep then EmptyString :: split sep rest
      else match split sep rest with
           | piece :: pieces => String c piece :: pieces
           | [] => [String c EmptyString]
           end
  end.

(** [xs.join(sep)]. *)
Fixpoint join (sep : string) (xs : list string) : string :=
  match xs with
  | [] => ""
  | [x] => x
  | x :: rest => x +++ sep +++ join sep rest
  end.

(** Truthiness of a string: non-empty. *)
Definition truthy (s : string) : bool :=
  match s with EmptyString => false | String _ _ => true end.

(** White space and line terminators of the language, in UTF-8:
    one-byte (TAB, LF, VT, FF, CR, SP), two-byte (U+00A0) and three-byte
    (U+1680, U+2000..U+200A, U+2028, U+2029, U+202F, U+205F, U+3000,
    U+FEFF) code points. *)
Definition ws1 (a : ascii) : bool :=
  let n := nat_of_ascii a in
  (((9 <=? n) && (n <=? 13)) || (n =? 32))%nat.

Definition ws2 (a b : ascii) : bool :=
  ((nat_of_ascii a =? 194) && (nat_of_ascii b =? 160))%nat.

Definition ws3 (a b c : ascii) : bool :=
  let x := nat_of_ascii a in
  let y := nat_of_ascii b in
  let z := nat_of_ascii c in
  (((x =? 225) && (y =? 154) && (z =? 128))
   || ((x =? 226) && (y =? 128)
       && (((128 <=? z) && (z <=? 138)) || (z =? 168) || (z =? 169) || (z =? 175)))
   || ((x =? 226) && (y =? 129) && (z =? 159))
   || ((x =? 227) && (y =? 128) && (z =? 128))
   || ((x =? 239) && (y =? 187) && (z =? 191)))%nat.

Fixpoint trimStart (s : string) : string :=
  match s with
  | EmptyString => s
  | String a r1 =>
      if ws1 a then trimStart r1
      else match r1 with
           | EmptyString => s
           | String b r2 =>
               if ws2 a b then trimStart r2
               else match r2 with
                    | EmptyString => s
                    | String c r3 => if ws3 a b c then trimStart r3 else s
                    end
           end
  end.

Fixpoint rev (s : string) : string :=
  match s with
  | EmptyString => EmptyString
  | String c r => rev r +++ String c EmptyString
  end.

(** The same scan on the reversed string, where the bytes of a code point
    come last byte first. *)
Fixpoint trimStartRev (s : string) : string :=
  match s with
  | EmptyString => s
  | String a r1 =>
      if ws1 a then trimStartRev r1
      else match r1 with
           | EmptyString => s
           | String b r2 =>
               if ws2 b a then trimStartRev r2
               else match r2 with
                    | EmptyString => s
                    | String c r3 => if ws3 c b a then trimStartRev r3 else s
                    end
           end
  end.

Definition trimEnd (s : string) : string := rev (trimStartRev (rev s)).

(** [s.trim()]. *)
Definition trim (s : string) : string := trimEnd (trimStart s).

(** [s.includes(t)]. *)
Fixpoint includes (t s : string) : bool :=
  String.prefix t s
  || match s with
     | EmptyString => false
     | String _ r => includes t r
     end.

End Js.

(** ** Data model *)

(** The record [getPnpmWorkspaceProjects] returns for each package. *)
Record Project := mkProject {
  name : string;
  namespacePrefix : string;
  path : string;
  dependencies : list string;
  devDependencies : list string;
  description : option string
}.

Definition WorkspaceProjects := list Project.

(** [type Node]: [inner] may be [undefined], [projectName] is optional. *)
#[warnings="-register-all"]
Inductive Node : Type := mkNode {
  inner : option (list Node);
  nodeName : string;
  projectName : option string;
  root : bool
}.

Definition withInner (n : Node) (i : list Node) : Node :=
  mkNode (Some i) (nodeName n) (projectName n) (root n).

(** [x ?? []] on an optional array. *)
Definition orEmpty {A} (o : option (list A)) : list A :=
  match o with Some l => l | None => [] end.

(** ** createNodeTree *)

(** [current.find((c) => c.name === part)]. *)
Definition findByName (part : string) (current : list Node) : option Node :=
  find (fun c => nodeName c =? part) current.

(** In-place update of the first element that satisfies [p]: what assigning
    through the reference returned by [find] does to the array. *)
Fixpoint updateFirst {A} (p : A -> bool) (f : A -> A) (l : list A) : list A :=
  match l with
  | [] => []
  | x :: rest => if p x then f x :: rest else x :: updateFirst p f rest
  end.

(** The inner loop of [createNodeTree] over the remaining [parts], as the
    array [current] is after it.  When a node of that name exists the loop
    descends into its [inner] (made [[]] when undefined).  Otherwise it
    pushes a new node and goes on inside the new, empty [inner], so every
    later part is pushed as well and [leaf] ends as the node of the last
    part: that node alone receives [projectName].  On a path whose nodes all
    exist, [leaf] stays [null] and no node is renamed. *)
Fixpoint insertParts (parts : list string) (isRoot : bool) (pname : string)
    (current : list Node) : list Node :=
  match parts with
  | [] => current
  | part :: rest =>
      match findByName part current with
      | Some _ =>
          updateFirst (fun c => nodeName c =? part)
            (fun existingNode =>
               withInner existingNode
                 (insertParts rest isRoot pname (orEmpty (inner existingNode))))
            current
      | None =>
          current ++
            [ mkNode (Some (insertParts rest isRoot pname []))
                part
                (match rest with [] => Some pname | _ :: _ => None end)
                isRoot ]
      end
  end.

Definition pathParts (p : Project) : list string := Js.split "/" (path p).

Definition isRootPath (p : Project) : bool := path p =? "".

(** One iteration of the outer loop.  [current] starts as [tree] when the
    tree is empty and as [tree[0].inner] otherwise; should that be
    undefined, [current] is a fresh array nothing refers to and the tree is
    left as it was. *)
Definition createNodeStep (tree : list Node) (project : Project) : list Node :=
  match tree with
  | [] => insertParts (pathParts project) (isRootPath project) (name project) []
  | first :: others =>
      match inner first with
      | Some current =>
          withInner first
            (insertParts (pathParts project) (isRootPath project) (name project) current)
          :: others
      | None => tree
      end
  end.

Definition createNodeTree (projects : WorkspaceProjects) : list Node :=
  fold_left createNodeStep projects [].

(** ** generateFolderTree *)

Definition connectorLast : string := "└── ".
Definition connectorMid : string := "├── ".
Definition guide : string := "│   ".

(** The text one node adds to [result]: its line. *)
Definition nodeLine (prefix : string) (isLastItem : bool) (node : Node) : string :=
  let connector := if isLastItem then connectorLast else connectorMid in
  if root node
  then prefix +++ match projectName node with Some n => n | None => "(root)" end +++ nl
  else prefix +++ connector +++ nodeName node +++ nl.

Definition childPrefix (isLastItem : bool) (node : Node) : string :=
  if isLastItem then (if root node then "" else "    ") else guide.

(** The [for] loop of [renderTree] over [nodes] from position [index]. *)
Definition renderLoop (render : string -> bool -> Node -> string)
    (prefix : string) (lastIndex : Z) : list Node -> Z -> string :=
  fix loop (nodes : list Node) (index : Z) : string :=
    match nodes with
    | [] => ""
    | node :: rest =>
        render prefix (Z.eqb index lastIndex) node +++ loop rest (index + 1)%Z
    end.

(** One iteration of that loop, with the recursive call on [node.inner]. *)
Fixpoint renderNode (prefix : string) (isLastItem : bool) (node : Node)
    {struct node} : string :=
  nodeLine prefix isLastItem node
  +++ match inner node with
      | Some (c :: cs) =>
          renderLoop renderNode (prefix +++ childPrefix isLastItem node)
            (Z.of_nat (length (c :: cs)) - 1)%Z (c :: cs) 0%Z
      | _ => ""
      end.

Definition renderTree (nodes : list Node) (prefix : string) : string :=
  renderLoop renderNode prefix (Z.of_nat (length nodes) - 1)%Z nodes 0%Z.

Definition generateFolderTree (tree : list Node) : string :=
  fence +++ nl +++ renderTree tree "" +++ fence.

(** ** sanitizeMermaid *)

(** The characters of the class [[@/-]]. *)
Definition mermaidUnsafe (c : ascii) : bool :=
  Ascii.eqb c "@" || Ascii.eqb c "/" || Ascii.eqb c "-".

(** [s.replace(/[@/-]/g, "_")]. *)
Fixpoint sanitizeMermaid (s : string) : string :=
  match s with
  | EmptyString => EmptyString
  | String c rest =>
      String (if mermaidUnsafe c then "_"%char else c) (sanitizeMermaid rest)
  end.

(** ** Outcomes of code that may throw *)

Inductive Outcome (A : Type) : Type :=
| Returned (value : A)
| Threw (message : string).

Arguments Returned {A} value.
Arguments Threw {A} message.

Definition bind {A B} (m : Outcome A) (k : A -> Outcome B) : Outcome B :=
  match m with
  | Returned a => k a
  | Threw msg => Threw msg
  end.

Notation "x <- m ;; k" := (bind m (fun x => k))
  (at level 61, m at next level, right associativity).

(** A loop whose body may throw. *)
Fixpoint forEachM {A S} (body : S -> A -> Outcome S) (xs : list A) (st : S)
    : Outcome S :=
  match xs with
  | [] => Returned st
  | x :: rest => st' <- body st x ;; forEachM body rest st'
  end.

(** ** Plain objects used as records *)

Module JsObject.

(** Own string-keyed properties, in the order they were created. *)
Definition t (V : Type) := list (string * V).

Fixpoint ownGet {V} (k : string) (o : t V) : option V :=
  match o with
  | [] => None
  | (k', v) :: rest => if k' =? k then Some v else ownGet k rest
  end.

(** Replace the value of an own key, keeping its place. *)
Fixpoint ownUpdate {V} (k : string) (f : V -> V) (o : t V) : t V :=
  match o with
  | [] => []
  | (k', v) :: rest =>
      if k' =? k then (k', f v) :: rest else (k', v) :: ownUpdate k f rest
  end.

(** The properties every object literal inherits from [Object.prototype].
    Each holds a function (or, for [__proto__], the prototype itself):
    a truthy value without a [push] method. *)
Definition inheritedKeys : list string :=
  [ "constructor"; "__defineGetter__"; "__defineSetter__"; "hasOwnProperty";
    "__lookupGetter__"; "__lookupSetter__"; "isPrototypeOf";
    "propertyIsEnumerable"; "toString"; "valueOf"; "__proto__";
    "toLocaleString" ].

Definition inherited (k : string) : bool :=
  existsb (String.eqb k) inheritedKeys.

(** Array indices: the canonical decimal strings of 0 .. 2^32 - 2. *)
Definition isDigit (c : ascii) : bool :=
  ((48 <=? nat_of_ascii c) && (nat_of_ascii c <=? 57))%nat.

Fixpoint digitsValue (acc : N) (s : string) : option N :=
  match s with
  | EmptyString => Some acc
  | String c rest =>
      if isDigit c
      then digitsValue (acc * 10 + N.of_nat (nat_of_ascii c - 48)) rest
      else None
  end.

Definition arrayIndex (k : string) : option N :=
  match k with
  | EmptyString => None
  | String c rest =>
      if (Ascii.eqb c "0" && negb (rest =? ""))%bool then None
      else match digitsValue 0 k with
           | Some n => if (n <=? 4294967294)%N then Some n else None
           | None => None
           end
  end.

Fixpoint insertByIndex {V} (n : N) (e : string * V)
    (l : list (N * (string * V))) : list (N * (string * V)) :=
  match l with
  | [] => [(n, e)]
  | (m, e') :: rest =>
      if (n <=? m)%N then (n, e) :: l else (m, e') :: insertByIndex n e rest
  end.

Fixpoint indexed {V} (o : t V) : list (N * (string * V)) :=
  match o with
  | [] => []
  | (k, v) :: rest =>
      match arrayIndex k with
      | Some n => insertByIndex n (k, v) (indexed rest)
      | None => indexed rest
      end
  end.

Definition named {V} (o : t V) : t V :=
  filter (fun e => match arrayIndex (fst e) with Some _ => false | None => true end) o.

(** [Object.entries(o)]: array-index keys ascending, then the others in
    creation order. *)
Definition entries {V} (o : t V) : list (string * V) :=
  map snd (indexed o) ++ named o.

End JsObject.

(** ** Map and Set *)

Module JsSet.

Definition has (x : string) (s : list string) : bool := existsb (String.eqb x) s.

(** [s.add(x)]: appended when absent. *)
Definition add (x : string) (s : list string) : list string :=
  if has x s then s else s ++ [x].

End JsSet.

Module JsMap.

Definition t (V : Type) := list (string * V).

Fixpoint get {V} (k : string) (m : t V) : option V :=
  match m with
  | [] => None
  | (k', v) :: rest => if k' =? k then Some v else get k rest
  end.

(** [m.set(k, v)]: an existing key keeps its place. *)
Fixpoint set {V} (k : string) (v : V) (m : t V) : t V :=
  match m with
  | [] => [(k, v)]
  | (k', v') :: rest =>
      if k' =? k then (k', v) :: rest else (k', v') :: set k v rest
  end.

End JsMap.

(** ** generateDependencyGraph *)

(** [path.split("/")[0]]. *)
Definition firstSegment (p : string) : string :=
  match Js.split "/" p with
  | first :: _ => first
  | [] => ""
  end.

(** Body of the grouping loop.  [subgraphs[subgraph]] reads an own property
    or, failing that, an inherited one; an inherited one is truthy, so the
    array is not created and the call of [push] throws. *)
Definition groupStep (subgraphs : JsObject.t (list Project)) (project : Project)
    : Outcome (JsObject.t (list Project)) :=
  let subgraph := firstSegment (path project) in
  if subgraph =? "" then Returned subgraphs
  else match JsObject.ownGet subgraph subgraphs with
       | Some _ =>
           Returned (JsObject.ownUpdate subgraph (fun l => l ++ [project]) subgraphs)
       | None =>
           if JsObject.inherited subgraph
           then Threw "TypeError: subgraphs[subgraph].push is not a function"
           else Returned (subgraphs ++ [(subgraph, [project])])
       end.

Definition groupProjects (projects : WorkspaceProjects)
    : Outcome (JsObject.t (list Project)) :=
  forEachM groupStep projects [].

Definition nodeDeclaration (project : Project) : string :=
  let sanitizedName := sanitizeMermaid (name project) in
  "     " +++ sanitizedName +++ "[" +++ dquote +++ name project +++ dquote +++ "]" +++ nl.

Definition subgraphBlock (entry : string * list Project) : string :=
  let (subgraph, sProjects) := entry in
  "  subgraph " +++ subgraph +++ nl
  +++ String.concat "" (map nodeDeclaration sProjects)
  +++ "  end" +++ nl.

(** [projects.find((p) => p.name === dep)], then the first path segment of
    the project found, or the empty string. *)
Definition resolveDependency (projects : WorkspaceProjects) (dep : string) : string :=
  match find (fun p => name p =? dep) projects with
  | None => ""
  | Some depProject => firstSegment (path depProject)
  end.

(** Body of the loop that fills [subgraphDependencies]. *)
Definition dependencyStep (projects : WorkspaceProjects)
    (subgraphDependencies : JsMap.t (list string)) (project : Project)
    : JsMap.t (list string) :=
  if path project =? "" then subgraphDependencies
  else
    let currentSubgraph := firstSegment (path project) in
    let currentSet :=
      match JsMap.get currentSubgraph subgraphDependencies with
      | Some s => s
      | None => []
      end in
    let allSubgraphDependencies :=
      map (resolveDependency projects)
          (dependencies project ++ devDependencies project) in
    let currentSet' :=
      fold_left (fun s dep => JsSet.add dep s) allSubgraphDependencies currentSet in
    JsMap.set currentSubgraph currentSet' subgraphDependencies.

Definition subgraphDependencies (projects : WorkspaceProjects) : JsMap.t (list string) :=
  fold_left (dependencyStep projects) projects [].

(** [[...dependencies].filter((x) => x && x !== subgraph)]. *)
Definition edgeTargets (subgraph : string) (dependencies : list string) : list string :=
  filter (fun x => Js.truthy x && negb (x =? subgraph)) dependencies.

(** What the callback of [subgraphDependencies.forEach] appends. *)
Definition edgeStatement (entry : string * list string) : string :=
  let (subgraph, dependencies) := entry in
  let deps := Js.trim (Js.join " & " (edgeTargets subgraph dependencies)) in
  if deps =? "" then "" else "  " +++ subgraph +++ " --> " +++ deps +++ nl.

Definition generateDependencyGraph (projects : WorkspaceProjects) : Outcome string :=
  subgraphs <- groupProjects projects ;;
  let mermaidGraph :=
    "graph TD" +++ nl
    +++ String.concat "" (map subgraphBlock (JsObject.entries subgraphs))
    +++ String.concat "" (map edgeStatement (subgraphDependencies projects)) in
  Returned (fence +++ "mermaid" +++ nl +++ mermaidGraph +++ fence).

(** ** getPnpmWorkspaceProjects *)

(** A value produced by [JSON.parse].  The members of an object are its own
    properties in enumeration order; the numeric value of a number plays no
    part in the schemas below. *)
#[warnings="-register-all"]
Inductive Json : Type :=
| JNull
| JBool (b : bool)
| JNumber
| JString (s : string)
| JArray (items : list Json)
| JObject (members : list (string * Json)).

Module Zod.

(** A schema is a parser: [Some] of the parsed data, or [None] when
    [safeParse] reports failure. *)
Definition schema (A : Type) := Json -> option A.

Definition string_ : schema string :=
  fun j => match j with JString s => Some s | _ => None end.

(** [z.string().min(1)]. *)
Definition stringMin1 : schema string :=
  fun j => match j with
           | JString s => if Js.truthy s then Some s else None
           | _ => None
           end.

Definition boolean : schema bool :=
  fun j => match j with JBool b => Some b | _ => None end.

(** A key of an object schema marked [.optional()]. *)
Definition optionalField {A} (v : schema A) (k : string)
    (members : list (string * Json)) : option (option A) :=
  match JsObject.ownGet k members with
  | None => Some None
  | Some j => match v j with Some a => Some (Some a) | None => None end
  end.

Definition requiredField {A} (v : schema A) (k : string)
    (members : list (string * Json)) : option A :=
  match JsObject.ownGet k members with
  | None => None
  | Some j => v j
  end.

Fixpoint each {A B} (v : A -> option B) (xs : list A) : option (list B) :=
  match xs with
  | [] => Some []
  | x :: rest =>
      match v x, each v rest with
      | Some y, Some ys => Some (y :: ys)
      | _, _ => None
      end
  end.

(** [z.record(v)]: every member is validated; the parsed record is built
    by assignment, which leaves out a member named [__proto__]. *)
Definition record {A} (v : schema A) : schema (list (string * A)) :=
  fun j => match j with
           | JObject members =>
               match each (fun e => match v (snd e) with
                                    | Some a => Some (fst e, a)
                                    | None => None
                                    end) members with
               | Some parsed =>
                   Some (filter (fun e => negb (fst e =? "__proto__")) parsed)
               | None => None
               end
           | _ => None
           end.

(** [schema.array()]. *)
Definition array {A} (v : schema A) : schema (list A) :=
  fun j => match j with JArray items => each v items | _ => None end.

End Zod.

(** [z.object({ version: z.string(), from: z.string(), path: z.string() })]. *)
Definition dependencyMetaSchema : Zod.schema unit :=
  fun j => match j with
           | JObject members =>
               match Zod.requiredField Zod.string_ "version" members,
                     Zod.requiredField Zod.string_ "from" members,
                     Zod.requiredField Zod.string_ "path" members with
               | Some _, Some _, Some _ => Some tt
               | _, _, _ => None
               end
           | _ => None
           end.

(** The fields of a parsed workspace entry the program reads afterwards. *)
Record WorkspaceEntry := mkWorkspaceEntry { pkgName : string; pkgPath : string }.

(** One element of [WorkspaceProjectSchema]. *)
Definition workspaceEntrySchema : Zod.schema WorkspaceEntry :=
  fun j => match j with
           | JObject members =>
               match Zod.requiredField Zod.stringMin1 "name" members,
                     Zod.optionalField Zod.string_ "version" members,
                     Zod.requiredField Zod.stringMin1 "path" members,
                     Zod.optionalField Zod.boolean "private" members,
                     Zod.optionalField (Zod.record dependencyMetaSchema)
                       "dependencies" members,
                     Zod.optionalField (Zod.record dependencyMetaSchema)
                       "devDependencies" members with
               | Some n, Some _, Some p, Some _, Some _, Some _ =>
                   Some (mkWorkspaceEntry n p)
               | _, _, _, _, _, _ => None
               end
           | _ => None
           end.

Definition WorkspaceProjectSchema : Zod.schema (list WorkspaceEntry) :=
  Zod.array workspaceEntrySchema.

Record PackageJson := mkPackageJson {
  pjName : string;
  pjDescription : option string;
  pjDependencies : option (list (string * string));
  pjDevDependencies : option (list (string * string))
}.

Definition packageJsonSchema : Zod.schema PackageJson :=
  fun j => match j with
           | JObject members =>
               match Zod.requiredField Zod.stringMin1 "name" members,
                     Zod.optionalField Zod.string_ "version" members,
                     Zod.optionalField Zod.string_ "description" members,
                     Zod.optionalField (Zod.record Zod.string_)
                       "dependencies" members,
                     Zod.optionalField (Zod.record Zod.string_)
                       "devDependencies" members with
               | Some n, Some _, Some d, Some deps, Some devDeps =>
                   Some (mkPackageJson n d deps devDeps)
               | _, _, _, _, _ => None
               end
           | _ => None
           end.

(** [Object.keys(record || {})]. *)
Definition keysOrEmpty (r : option (list (string * string))) : list string :=
  match r with Some members => map fst members | None => [] end.

Section Workspace.

(** The collaborators outside the program: the package manager listing
    ([execSync] followed by [JSON.parse], [None] when either throws), the
    file system ([JSON.parse(fs.readFileSync(file))], [None] when either
    throws) and the [path] module. *)
Variable pnpmList : string -> option Json.
Variable readJsonFile : string -> option Json.
Variable pathJoin : string -> string -> string.
Variable pathRelative : string -> string -> string.

(** The callback of [packages.map]. *)
Definition validatePackage (rootPath : string) (pkg : WorkspaceEntry)
    : Outcome Project :=
  match readJsonFile (pathJoin (pkgPath pkg) "package.json") with
  | None => Threw "SyntaxError or file system error"
  | Some packageJson =>
      match packageJsonSchema packageJson with
      | None => Threw ("Invalid package.json in " +++ pkgPath pkg)
      | Some data =>
          Returned
            (mkProject (pkgName pkg)
               (firstSegment (pkgName pkg))
               (pathRelative rootPath (pkgPath pkg))
               (keysOrEmpty (pjDependencies data))
               (keysOrEmpty (pjDevDependencies data))
               (pjDescription data))
      end
  end.

Fixpoint mapM {A B} (f : A -> Outcome B) (xs : list A) : Outcome (list B) :=
  match xs with
  | [] => Returned []
  | x :: rest => y <- f x ;; ys <- mapM f rest ;; Returned (y :: ys)
  end.

(** The body of the [try] block. *)
Definition readWorkspace (rootPath : string) : Outcome WorkspaceProjects :=
  match pnpmList rootPath with
  | None => Threw "pnpm ls failed"
  | Some output =>
      match WorkspaceProjectSchema output with
      | None => Threw "Invalid workspace projects structure"
      | Some packages => mapM (validatePackage rootPath) packages
      end
  end.

(** The [catch] block logs the error and returns the empty array: the
    promise of [getPnpmWorkspaceProjects] never rejects. *)
Definition getPnpmWorkspaceProjects (rootPath : string) : Outcome WorkspaceProjects :=
  match readWorkspace rootPath with
  | Returned validatedPackages => Returned validatedPackages
  | Threw _ => Returned []
  end.

(** [generateArchitectureDoc] as far as the tree and graph texts it hands
    to the template go.  It first reads the root [package.json]
    ([fs.readJSON], which throws when the file is missing or is not JSON)
    and then its [description], which throws on [null].  The text
    generation calls that may follow catch their own errors and touch
    neither text. *)
Definition architectureBlocks (rootPath : string) (projects : WorkspaceProjects)
    : Outcome (string * string) :=
  match readJsonFile (pathJoin rootPath "package.json") with
  | None => Threw "ENOENT or SyntaxError: root package.json"
  | Some JNull => Threw "TypeError: Cannot read properties of null"
  | Some _ =>
      let nodes := createNodeTree projects in
      let tree := generateFolderTree nodes in
      graph <- generateDependencyGraph projects ;;
      Returned (tree, graph)
  end.

(** The command action from the listing of the workspace on, once its
    options are settled, as far as those texts go: [None] when it returns
    after reporting that no workspace projects were found. *)
Definition actionBlocks (rootPath : string) : Outcome (option (string * string)) :=
  projects <- getPnpmWorkspaceProjects rootPath ;;
  if (length projects =? 0)%nat then Returned None
  else blocks <- architectureBlocks rootPath projects ;; Returned (Some blocks).

End Workspace.

(** ** Notions used to state the properties *)

(** The path segments of a project as the tree invariant counts them: none
    for the root project, the pieces between slashes otherwise. *)
Definition pathSegments (p : string) : list string :=
  if p =? "" then [] else Js.split "/" p.

(** Walking child lists by segment names, from a list of siblings. *)
Fixpoint descend (segs : list string) (nodes : list Node) : option Node :=
  match segs with
  | [] => None
  | seg :: rest =>
      match findByName seg nodes with
      | None => None
      | Some n =>
          match rest with
          | [] => Some n
          | _ :: _ => descend rest (orEmpty (inner n))
          end
      end
  end.

(** Traversal from the node [r] through [inner]. *)
Definition traverse (r : Node) (segs : list string) : option Node :=
  match segs with
  | [] => Some r
  | _ :: _ => descend segs (orEmpty (inner r))
  end.

(** A project is reached from a top-level node through [inner]. *)
Definition reachesProject (forest : list Node) (p : Project) : Prop :=
  exists r n,
    In r forest
    /\ traverse r (pathSegments (path p)) = Some n
    /\ projectName n = Some (name p).

(** The outer loop of [createNodeTree] below a fixed first node: one
    project inserted into the child list that node refers to. *)
Definition insertProject (current : list Node) (p : Project) : list Node :=
  insertParts (pathParts p) (isRootPath p) (name p) current.

(** The same walk started at the top-level list of the forest. *)
Definition reachesAlongForest (forest : list Node) (p : Project) : Prop :=
  exists n,
    descend (pathSegments (path p)) forest = Some n
    /\ projectName n = Some (name p).

Fixpoint isPrefixOf (a b : list string) : bool :=
  match a, b with
  | [], _ => true
  | _ :: _, [] => false
  | x :: a', y :: b' => (x =? y) && isPrefixOf a' b'
  end.

(** No character of the class [[@/-]] occurs in the string. *)
Fixpoint noneUnsafe (s : string) : bool :=
  match s with
  | EmptyString => true
  | String c rest => negb (mermaidUnsafe c) && noneUnsafe rest
  end.

(** The identifier and label of a node declaration, without indentation. *)
Definition nodeLabel (project : Project) : string :=
  sanitizeMermaid (name project) +++ "[" +++ dquote +++ name project +++ dquote +++ "]".

(** A project with the dependency names that match no project removed. *)
Definition isWorkspaceName (projects : WorkspaceProjects) (dep : string) : bool :=
  existsb (fun p => name p =? dep) projects.

Definition dropExternal (projects : WorkspaceProjects) (p : Project) : Project :=
  mkProject (name p) (namespacePrefix p) (path p)
    (filter (isWorkspaceName projects) (dependencies p))
    (filter (isWorkspaceName projects) (devDependencies p))
    (description p).


(** The targets of a map entry that survive the truthiness test. *)
Definition liveTargets (m : JsMap.t (list string)) : JsMap.t (list string) :=
  map (fun e => (fst e, filter Js.truthy (snd e))) m.

(** The grouping object with [f] applied to every member. *)
Definition relabel (f : Project -> Project) (o : JsObject.t (list Project))
    : JsObject.t (list Project) :=
  map (fun e => (fst e, map f (snd e))) o.

Definition relabelled (f : Project -> Project)
    (r : Outcome (JsObject.t (list Project)))
    : Outcome (JsObject.t (list Project)) :=
  match r with
  | Returned o => Returned (relabel f o)
  | Threw msg => Threw msg
  end.

Definition relabelIndexed (f : Project -> Project)
    (l : list (N * (string * list Project)))
    : list (N * (string * list Project)) :=
  map (fun ie => (fst ie, (fst (snd ie), map f (snd (snd ie))))) l.

(** A raw workspace record that carries a non-empty string [name]. *)
Definition hasNonEmptyName (j : Json) : bool :=
  match j with
  | JObject members =>
      match JsObject.ownGet "name" members with
      | Some (JString s) => Js.truthy s
      | _ => false
      end
  | _ => false
  end.

(** ** Sample workspaces *)

Module Samples.

Definition project (n p : string) (deps : list string) : Project :=
  mkProject n (firstSegment n) p deps [] None.

Definition rootProject := project "root" "" [].
Definition pkgA := project "pkg-a" "packages/a" [].

Definition core := project "@x/core" "packages/core" [].
Definition api := project "@x/api" "services/api" ["@x/core"; "left-pad"].

Definition worker := project "@x/worker" "services/worker" ["@x/core"; "@x/api"].

(** The graph text expected for [core] and [api]. *)
Definition coreApiGraph : string :=
  fence +++ "mermaid" +++ nl
  +++ "graph TD" +++ nl
  +++ "  subgraph packages" +++ nl
  +++ "     _x_core[" +++ dquote +++ "@x/core" +++ dquote +++ "]" +++ nl
  +++ "  end" +++ nl
  +++ "  subgraph services" +++ nl
  +++ "     _x_api[" +++ dquote +++ "@x/api" +++ dquote +++ "]" +++ nl
  +++ "  end" +++ nl
  +++ "  services --> packages" +++ nl
  +++ fence.

Definition e2e := project "e2e" "apps/web/e2e" [].
Definition web := project "web" "apps/web" [].

Definition dashed := project "a-b" "libs/dashed" [].
Definition underscored := project "a_b" "libs/underscored" [].

(** Stand-ins for the collaborators of [getPnpmWorkspaceProjects]. *)
Definition joinSlash (a b : string) : string := a +++ "/" +++ b.
Definition relativeTo (_ p : string) : string := p.
Definition noFiles (_ : string) : option Json := None.

Definition unnamedListing (_ : string) : option Json :=
  Some (JArray [ JObject [("name", JString ""); ("path", JString "/repo/packages/a")] ]).

End Samples.

From Stdlib Require Import Permutation Sorted.

(** ** generateTechStackWithAI *)

(** [new Set(data.map((p) => p.namespacePrefix))]. *)
Definition internalPrefixes (data : WorkspaceProjects) : list string :=
  fold_left (fun s prefix => JsSet.add prefix s) (map namespacePrefix data) [].

(** [(d) => !internalPrefixes.has(d.split("/")[0])]. *)
Definition isExternalName (prefixes : list string) (d : string) : bool :=
  negb (JsSet.has (firstSegment d) prefixes).

(** The callback of [data.flatMap]. *)
Definition externalOf (prefixes : list string) (p : Project) : list string :=
  filter (isExternalName prefixes) (dependencies p)
  ++ filter (isExternalName prefixes) (devDependencies p).

(** [[...new Set(data.flatMap(...))].slice(0, 500)]. *)
Definition externalPackages (data : WorkspaceProjects) : list string :=
  let internal := internalPrefixes data in
  firstn 500
    (fold_left (fun s d => JsSet.add d s) (flat_map (externalOf internal) data) []).

Definition techStackPrompt (data : WorkspaceProjects) : string :=
  "Generate a tech stack description. Directly reference only external packages." +++ nl
  +++ "You can use internal ones to get project architecture:" +++ nl
  +++ nl
  +++ "Internal packages:" +++ nl
  +++ Js.join nl (map name data) +++ nl
  +++ nl
  +++ "External packages:" +++ nl
  +++ "  " +++ Js.join nl (externalPackages data) +++ nl.

Definition techStackSystem : string :=
  "You are a technical writer who specializes in creating concise project descriptions." +++ nl
  +++ "Generate a clear, technical description of tech stack in bullet points that will be displayed in markdown." +++ nl
  +++ "Don't include all external packages but the most important ones" +++ nl
  +++ "Use following template: " +++ nl
  +++ "- **External Package 1 name**: description" +++ nl
  +++ "- **External Package 2 name**: description".

Section TechStack.

(** The text generation service for a fixed model: [Some] of the text it
    resolves with for a system message and a prompt, [None] when the call
    rejects. *)
Variable generateText : string -> string -> option string.

(** The [catch] block returns the empty string. *)
Definition generateTechStackWithAI (data : WorkspaceProjects) : string :=
  match generateText techStackSystem (techStackPrompt data) with
  | Some text => text
  | None => ""
  end.

End TechStack.

(** ** Reading an edge statement back *)

(** [s.split(sep)] for a separator of several characters; [skip] counts the
    characters of a separator just matched that are still to be passed. *)
Fixpoint splitOnFrom (sep : string) (skip : nat) (s : string) : list string :=
  match s with
  | EmptyString => [EmptyString]
  | String c rest =>
      match skip with
      | S k => splitOnFrom sep k rest
      | O =>
          if String.prefix sep s
          then EmptyString :: splitOnFrom sep (String.length sep - 1) rest
          else match splitOnFrom sep 0 rest with
               | piece :: pieces => String c piece :: pieces
               | [] => [String c EmptyString]
               end
      end
  end.

(** The local [deps] of the callback that prints an edge statement. *)
Definition edgeDeps (subgraph : string) (dependencies : list string) : string :=
  Js.trim (Js.join " & " (edgeTargets subgraph dependencies)).

(** The targets the printed edge statement of an entry names, read off its
    text: none when no statement is printed. *)
Definition printedTargets (subgraph : string) (dependencies : list string)
    : list string :=
  if edgeDeps subgraph dependencies =? "" then []
  else splitOnFrom " & " 0 (edgeDeps subgraph dependencies).





(** ** Further notions used to state properties *)

(** A property holds of a node and of every node below it. *)
Fixpoint everyNode (P : Node -> Prop) (n : Node) {struct n} : Prop :=
  P n
  /\ match inner n with
     | Some children =>
         (fix each (l : list Node) : Prop :=
            match l with
            | [] => True
            | c :: cs => everyNode P c /\ each cs
            end) children
     | None => True
     end.

Definition innerDefined (n : Node) : Prop := inner n <> None.

Definition siblingsDistinct (n : Node) : Prop :=
  NoDup (map nodeName (orEmpty (inner n))).

Definition rootLabelled (n : Node) : Prop :=
  root n = true -> nodeName n = "" /\ projectName n <> None.

Definition wellBuilt (n : Node) : Prop :=
  innerDefined n /\ siblingsDistinct n /\ rootLabelled n.

(** The forest is empty or a single well-built node. *)
Definition forestShape (tree : list Node) : Prop :=
  tree = [] \/ exists r, tree = [r] /\ everyNode wellBuilt r.

(** Number of nodes of a tree and of a forest. *)
Fixpoint nodeCount (n : Node) {struct n} : nat :=
  S match inner n with
    | Some children =>
        (fix sum (l : list Node) : nat :=
           match l with
           | [] => 0
           | c :: cs => nodeCount c + sum cs
           end) children
    | None => 0
    end.

Definition forestCount (forest : list Node) : nat :=
  fold_right (fun n acc => nodeCount n + acc) 0 forest.

(** Occurrences of a character in a string. *)
Fixpoint countChar (c : ascii) (s : string) : nat :=
  match s with
  | EmptyString => 0
  | String d rest => (if Ascii.eqb d c then 1 else 0) + countChar c rest
  end.

Definition lineBreaks (s : string) : nat := countChar "010"%char s.

(** Neither the segment name nor the project name of a node breaks a line. *)
Definition singleLineLabels (n : Node) : Prop :=
  lineBreaks (nodeName n) = 0
  /\ forall label, projectName n = Some label -> lineBreaks label = 0.

(** Characters that [sanitizeMermaid] maps to the underscore. *)
Definition mapsToUnderscore (c : ascii) : bool :=
  mermaidUnsafe c || Ascii.eqb c "_".

(** Two names that agree except where both hold such a character. *)
Fixpoint sameIdentifier (s t : string) : bool :=
  match s, t with
  | EmptyString, EmptyString => true
  | String c s', String d t' =>
      (Ascii.eqb c d || (mapsToUnderscore c && mapsToUnderscore d))
      && sameIdentifier s' t'
  | _, _ => false
  end.

(** The projects whose first path segment is [k], in listing order. *)
Definition membersOf (k : string) (projects : WorkspaceProjects) : list Project :=
  filter (fun p => firstSegment (path p) =? k) projects.

(** What the grouping loop maintains: own keys are distinct, non-empty and
    never names of inherited properties. *)
Definition groupInvariant (o : JsObject.t (list Project)) : Prop :=
  NoDup (map fst o)
  /\ Forall (fun e => JsObject.inherited (fst e) = false /\ fst e <> "") o.

(** The value the grouping loop leaves under [k] after the projects [l],
    given the value [prev] it found there. *)
Definition grouped (k : string) (l : list Project) (prev : option (list Project))
    : option (list Project) :=
  match prev with
  | Some members => Some (members ++ membersOf k l)
  | None =>
      if k =? "" then None
      else match membersOf k l with
           | [] => None
           | _ :: _ => Some (membersOf k l)
           end
  end.

(** The non-empty first path segments of the projects, each once, in the
    order of first occurrence. *)
Definition subgraphKeys (projects : WorkspaceProjects) : list string :=
  fold_left (fun s k => JsSet.add k s)
    (filter Js.truthy (map (fun p => firstSegment (path p)) projects)) [].

(** Keys that [Object.entries] treats as array indices, and their value. *)
Definition isIndexKey (k : string) : bool :=
  match JsObject.arrayIndex k with Some _ => true | None => false end.

Definition indexValue (k : string) : N :=
  match JsObject.arrayIndex k with Some n => n | None => 0%N end.


(** Some project sits under a directory named like an inherited property. *)
Definition hasInheritedSegment (projects : WorkspaceProjects) : bool :=
  existsb (fun p => JsObject.inherited (firstSegment (path p))) projects.

(** A project with the dependencies that resolve to no subgraph removed. *)
Definition resolvesToSubgraph (projects : WorkspaceProjects) (dep : string) : bool :=
  Js.truthy (resolveDependency projects dep).

Definition keepSubgraphDependencies (projects : WorkspaceProjects) (p : Project)
    : Project :=
  mkProject (name p) (namespacePrefix p) (path p)
    (filter (resolvesToSubgraph projects) (dependencies p))
    (filter (resolvesToSubgraph projects) (devDependencies p))
    (description p).

(** A project with its development dependencies moved behind its
    dependencies. *)
Definition mergeDevDependencies (p : Project) : Project :=
  mkProject (name p) (namespacePrefix p) (path p)
    (dependencies p ++ devDependencies p) [] (description p).

(** The package file of a listed package is missing, unreadable or fails
    [packageJsonSchema]. *)
Definition packageFileRejected (readJsonFile : string -> option Json)
    (pathJoin : string -> string -> string) (pkg : WorkspaceEntry) : Prop :=
  match readJsonFile (pathJoin (pkgPath pkg) "package.json") with
  | Some packageJson => packageJsonSchema packageJson = None
  | None => True
  end.

Module MoreSamples.

Definition scoped := Samples.project "@x/web" "apps/web" ["react"; "@x/core"; "@y/ui"].
Definition tooling :=
  mkProject "@x/tooling" "@x" "tools/lint" ["eslint"; "react"] ["vitest"; "@x/web"] None.
Definition ten := Samples.project "ten" "10/ten" [].

(** Two top-level directories that differ by a trailing space. *)
Definition caller := Samples.project "caller" "a/caller" ["sibling"; "spaced"].
Definition sibling := Samples.project "sibling" "a/sibling" [].
Definition spaced := Samples.project "spaced" "a /spaced" [].

Definition first := Samples.project "first" "a/first" ["target"].
Definition second := Samples.project "second" "a/second" ["target"; "other"].
Definition target := Samples.project "target" "b/target" [].
Definition other := Samples.project "other" "b /other" [].
Definition two := Samples.project "two" "2/two" [].

Definition listing (_ : string) : option Json :=
  Some (JArray
          [ JObject [("name", JString "@x/core"); ("path", JString "packages/core")];
            JObject [("name", JString "plain"); ("path", JString "packages/plain")] ]).

Definition files (file : string) : option Json :=
  if file =? "packages/core/package.json"
  then Some (JObject [("name", JString "@x/core");
                      ("dependencies", JObject [("left-pad", JString "1.0.0")])])
  else if file =? "packages/plain/package.json"
  then Some (JObject [("name", JString "plain")])
  else None.

Definition brokenFiles (file : string) : option Json :=
  if file =? "packages/core/package.json"
  then Some (JObject [("name", JString "@x/core")])
  else None.

End MoreSamples.

(** * Properties *)

(** ** Strings *)

Lemma append_nil_r (s : string) : s +++ "" = s.
Proof. induction s as [|c s IH]; simpl; [reflexivity | now rewrite IH]. Qed.

Lemma append_assoc (a b c : string) : (a +++ b) +++ c = a +++ b +++ c.
Proof. induction a as [|x a IH]; simpl; [reflexivity | now rewrite IH]. Qed.

Lemma split_nonempty (sep : ascii) (s : string) : Js.split sep s <> [].
Proof.
  destruct s as [|c s]; simpl; [discriminate|].
  destruct (Ascii.eqb c sep); [discriminate|].
  destruct (Js.split sep s); discriminate.
Qed.

(** ** sanitizeMermaid *)

Lemma sanitize_clean (s : string) : noneUnsafe (sanitizeMermaid s) = true.
Proof.
  induction s as [|c s IH]; simpl; [reflexivity|].
  rewrite IH, andb_true_r.
  destruct (mermaidUnsafe c) eqn:E; [reflexivity | now rewrite E].
Qed.

Lemma sanitize_fixes_clean (s : string) :
  noneUnsafe s = true -> sanitizeMermaid s = s.
Proof.
  induction s as [|c s IH]; simpl; [reflexivity|].
  intros H. apply andb_prop in H as [Hc Hs].
  apply negb_true_iff in Hc. rewrite Hc, (IH Hs). reflexivity.
Qed.

(** C8. Sanitization is idempotent: a string that holds none of the
    characters at-sign, slash and dash is returned unchanged, and for every
    string sanitizing the sanitized string gives the sanitized string. *)
Theorem sanitizeMermaid_idempotent :
  (forall s, noneUnsafe s = true -> sanitizeMermaid s = s)
  /\ (forall s, sanitizeMermaid (sanitizeMermaid s) = sanitizeMermaid s).
Proof.
  split.
  - exact sanitize_fixes_clean.
  - intros s. apply sanitize_fixes_clean, sanitize_clean.
Qed.

Lemma sanitizeMermaid_idempotent_witness :
  noneUnsafe "_x_core" = true /\ sanitizeMermaid "_x_core" = "_x_core".
Proof.
  split; [reflexivity|].
  apply (proj1 sanitizeMermaid_idempotent). reflexivity.
Defined.

(** C10. The identifier mapping is not injective: the distinct names [a-b]
    and [a_b] receive the same identifier, and a workspace holding both
    gets two declarations of the node [a_b] with different labels. *)
Theorem sanitizeMermaid_not_injective :
  name Samples.dashed <> name Samples.underscored
  /\ sanitizeMermaid (name Samples.dashed) = sanitizeMermaid (name Samples.underscored)
  /\ generateDependencyGraph [Samples.dashed; Samples.underscored]
     = Returned
         (fence +++ "mermaid" +++ nl
          +++ "graph TD" +++ nl
          +++ "  subgraph libs" +++ nl
          +++ "     a_b[" +++ dquote +++ "a-b" +++ dquote +++ "]" +++ nl
          +++ "     a_b[" +++ dquote +++ "a_b" +++ dquote +++ "]" +++ nl
          +++ "  end" +++ nl
          +++ fence).
Proof.
  split; [discriminate|]. split; reflexivity.
Qed.

(** ** createNodeTree: shape of the result *)

Lemma createNodeStep_single (i : list Node) (nm : string) (pn : option string)
    (rt : bool) (p : Project) :
  createNodeStep [mkNode (Some i) nm pn rt] p
  = [mkNode (Some (insertProject i p)) nm pn rt].
Proof. reflexivity. Qed.

Lemma fold_createNodeStep_single (rest : list Project) :
  forall i nm pn rt,
    fold_left createNodeStep rest [mkNode (Some i) nm pn rt]
    = [mkNode (Some (fold_left insertProject rest i)) nm pn rt].
Proof.
  induction rest as [|p rest IH]; intros i nm pn rt; cbn [fold_left].
  - reflexivity.
  - rewrite createNodeStep_single. apply IH.
Qed.

(** With the root project first, the tree is one node for it and every
    other project lives below that node. *)
Lemma createNodeTree_root_first (p0 : Project) (rest : list Project) :
  path p0 = "" ->
  createNodeTree (p0 :: rest)
  = [mkNode (Some (fold_left insertProject rest [])) "" (Some (name p0)) true].
Proof.
  intros Hp. unfold createNodeTree. cbn [fold_left].
  replace (createNodeStep [] p0) with [mkNode (Some []) "" (Some (name p0)) true].
  - apply fold_createNodeStep_single.
  - unfold createNodeStep, pathParts, isRootPath. rewrite Hp. reflexivity.
Qed.

(** ** generateFolderTree: the root line *)

Lemma renderNode_unfold (prefix : string) (isLastItem : bool) (node : Node) :
  renderNode prefix isLastItem node
  = nodeLine prefix isLastItem node
    +++ match inner node with
        | Some (c :: cs) => renderTree (c :: cs) (prefix +++ childPrefix isLastItem node)
        | _ => ""
        end.
Proof. destruct node as [[[|c cs]|] nm pn rt]; reflexivity. Qed.

Lemma renderLoop_cons (render : string -> bool -> Node -> string)
    (prefix : string) (lastIndex index : Z) (node : Node) (rest : list Node) :
  renderLoop render prefix lastIndex (node :: rest) index
  = render prefix (Z.eqb index lastIndex) node
    +++ renderLoop render prefix lastIndex rest (index + 1)%Z.
Proof. reflexivity. Qed.

Lemma renderTree_root_node (children : list Node) (label : string) :
  renderTree [mkNode (Some children) "" (Some label) true] ""
  = label +++ nl +++ renderTree children "".
Proof.
  unfold renderTree at 1. rewrite renderLoop_cons, renderNode_unfold.
  cbn [length Z.of_nat Pos.of_succ_nat Z.sub Z.opp Z.add Z.pos_sub Z.eqb
       renderLoop nodeLine childPrefix inner root projectName append].
  rewrite append_nil_r, append_assoc.
  destruct children as [|c cs]; reflexivity.
Qed.

(** C2 (as stated) fails when the root project is not listed first: it is
    then pushed below the first project's top-level node, and no top-level
    node is flagged [root]; its line is indented under that node. *)
Lemma root_project_listed_second :
  (~ exists r, In r (createNodeTree [Samples.pkgA; Samples.rootProject])
               /\ root r = true)
  /\ generateFolderTree (createNodeTree [Samples.pkgA; Samples.rootProject])
     = fence +++ nl
       +++ "└── packages" +++ nl
       +++ "    ├── a" +++ nl
       +++ "    root" +++ nl
       +++ fence.
Proof.
  split; [|reflexivity].
  intros [r [Hin Hroot]]. vm_compute in Hin.
  destruct Hin as [<-|[]]. discriminate Hroot.
Qed.

(** C2 (amended). When the first project of the list has the empty path, it
    becomes the single top-level node, flagged [root], and the first line of
    the tree is its name with no connector and no indentation; for the list
    of [root] at the empty path and [pkg-a] at [packages/a], [packages] and
    then [a], which carries the project name [pkg-a], are nested below it
    with the corner connector. *)
Theorem root_first_rendered_bare :
  (forall p0 rest, path p0 = "" ->
     exists children,
       createNodeTree (p0 :: rest)
       = [mkNode (Some children) "" (Some (name p0)) true]
       /\ generateFolderTree (createNodeTree (p0 :: rest))
          = fence +++ nl +++ name p0 +++ nl +++ renderTree children "" +++ fence)
  /\ createNodeTree [Samples.rootProject; Samples.pkgA]
     = [mkNode
          (Some [mkNode (Some [mkNode (Some []) "a" (Some "pkg-a") false])
                   "packages" None false])
          "" (Some "root") true]
  /\ generateFolderTree (createNodeTree [Samples.rootProject; Samples.pkgA])
     = fence +++ nl
       +++ "root" +++ nl
       +++ "└── packages" +++ nl
       +++ "    └── a" +++ nl
       +++ fence.
Proof.
  split; [|split; reflexivity].
  intros p0 rest Hp. eexists. split.
  - apply createNodeTree_root_first, Hp.
  - rewrite (createNodeTree_root_first p0 rest Hp).
    unfold generateFolderTree. rewrite renderTree_root_node.
    now rewrite !append_assoc.
Qed.

Lemma root_first_rendered_bare_witness :
  exists children,
    createNodeTree [Samples.rootProject; Samples.pkgA; Samples.web]
    = [mkNode (Some children) "" (Some "root") true]
    /\ generateFolderTree (createNodeTree [Samples.rootProject; Samples.pkgA; Samples.web])
       = fence +++ nl +++ "root" +++ nl +++ renderTree children "" +++ fence.
Proof.
  apply (proj1 root_first_rendered_bare Samples.rootProject
           [Samples.pkgA; Samples.web]).
  reflexivity.
Defined.

(** C3 (as stated) fails on the graph: the text generated for a lone root
    project holds no declaration of that project's node. *)
Lemma lone_root_declares_no_node :
  ~ exists graph,
      generateDependencyGraph [Samples.rootProject] = Returned graph
      /\ Js.includes (nodeLabel Samples.rootProject) graph = true.
Proof.
  intros [graph [Hg Hinc]]. vm_compute in Hg.
  injection Hg as <-. vm_compute in Hinc. discriminate Hinc.
Qed.

(** C3 (amended). For a single project at the empty path the tree is the one
    line of the project's name, and the graph is the bare header: the root
    project forms no subgraph and no node is declared for it. *)
Theorem lone_root_project (p : Project) :
  path p = "" ->
  generateFolderTree (createNodeTree [p]) = fence +++ nl +++ name p +++ nl +++ fence
  /\ generateDependencyGraph [p]
     = Returned (fence +++ "mermaid" +++ nl +++ "graph TD" +++ nl +++ fence).
Proof.
  intros Hp. split.
  - rewrite (createNodeTree_root_first p [] Hp).
    unfold generateFolderTree. rewrite renderTree_root_node.
    now rewrite !append_assoc.
  - destruct p as [n ns pa deps devs d]. simpl in Hp. subst pa. reflexivity.
Qed.

Lemma lone_root_project_witness :
  generateFolderTree (createNodeTree [Samples.rootProject])
  = fence +++ nl +++ "root" +++ nl +++ fence
  /\ generateDependencyGraph [Samples.rootProject]
     = Returned (fence +++ "mermaid" +++ nl +++ "graph TD" +++ nl +++ fence).
Proof.
  apply (lone_root_project Samples.rootProject). reflexivity.
Defined.

(** ** createNodeTree: finding nodes after an insertion *)

Section FindAfterUpdate.

Variable f : Node -> Node.
Hypothesis f_keeps_name : forall x, nodeName (f x) = nodeName x.

Lemma findByName_app_found (s : string) (cur extra : list Node) (e : Node) :
  findByName s cur = Some e -> findByName s (cur ++ extra) = Some e.
Proof.
  unfold findByName. induction cur as [|x cur IH]; simpl; [discriminate|].
  destruct (nodeName x =? s); [trivial | exact IH].
Qed.

Lemma findByName_app_missing (s : string) (cur : list Node) (n : Node) :
  findByName s cur = None ->
  findByName s (cur ++ [n]) = if nodeName n =? s then Some n else None.
Proof.
  unfold findByName. induction cur as [|x cur IH]; simpl; [trivial|].
  destruct (nodeName x =? s); [discriminate | exact IH].
Qed.

Lemma findByName_updateFirst_same (s : string) (cur : list Node) (e : Node) :
  findByName s cur = Some e ->
  findByName s (updateFirst (fun c => nodeName c =? s) f cur) = Some (f e).
Proof.
  unfold findByName. induction cur as [|x cur IH]; simpl; [discriminate|].
  destruct (nodeName x =? s) eqn:E; simpl.
  - intros [= ->]. now rewrite f_keeps_name, E.
  - rewrite E. exact IH.
Qed.

Lemma findByName_updateFirst_other (s part : string) (cur : list Node) :
  s <> part ->
  findByName s (updateFirst (fun c => nodeName c =? part) f cur)
  = findByName s cur.
Proof.
  intros Hne. unfold findByName.
  induction cur as [|x cur IH]; simpl; [reflexivity|].
  destruct (nodeName x =? part) eqn:E; simpl.
  - rewrite f_keeps_name. apply String.eqb_eq in E.
    assert (Hx : (nodeName x =? s) = false)
      by (apply String.eqb_neq; congruence).
    now rewrite Hx.
  - destruct (nodeName x =? s); [reflexivity | exact IH].
Qed.

End FindAfterUpdate.

Lemma insertParts_found (part : string) (rest : list string) (rf : bool)
    (pn : string) (cur : list Node) (e : Node) :
  findByName part cur = Some e ->
  insertParts (part :: rest) rf pn cur
  = updateFirst (fun c => nodeName c =? part)
      (fun existingNode =>
         withInner existingNode
           (insertParts rest rf pn (orEmpty (inner existingNode))))
      cur.
Proof. intros H. simpl. now rewrite H. Qed.

Lemma insertParts_missing (part : string) (rest : list string) (rf : bool)
    (pn : string) (cur : list Node) :
  findByName part cur = None ->
  insertParts (part :: rest) rf pn cur
  = cur ++ [mkNode (Some (insertParts rest rf pn [])) part
              (match rest with [] => Some pn | _ :: _ => None end) rf].
Proof. intros H. simpl. now rewrite H. Qed.

Lemma descend_cons (seg : string) (rest : list string) (nodes : list Node) :
  descend (seg :: rest) nodes
  = match findByName seg nodes with
    | None => None
    | Some n =>
        match rest with
        | [] => Some n
        | _ :: _ => descend rest (orEmpty (inner n))
        end
    end.
Proof. reflexivity. Qed.

(** A path that led nowhere leads, once inserted, to a node that carries
    the inserted project's name. *)
Lemma descend_insert_fresh (segs : list string) (rf : bool) (pn : string) :
  forall cur,
    segs <> [] ->
    descend segs cur = None ->
    exists n,
      descend segs (insertParts segs rf pn cur) = Some n
      /\ projectName n = Some pn.
Proof.
  induction segs as [|seg rest IH]; intros cur Hne Hnone; [congruence|].
  rewrite descend_cons in Hnone.
  destruct (findByName seg cur) as [e|] eqn:Hfind.
  - destruct rest as [|s' rest']; [discriminate|].
    rewrite (insertParts_found _ _ _ _ _ _ Hfind), descend_cons.
    erewrite findByName_updateFirst_same; [|reflexivity|exact Hfind].
    apply IH; [discriminate | exact Hnone].
  - rewrite (insertParts_missing _ _ _ _ _ Hfind), descend_cons.
    rewrite (findByName_app_missing _ _ _ Hfind). simpl nodeName.
    rewrite String.eqb_refl.
    destruct rest as [|s' rest'].
    + eexists. split; reflexivity.
    + apply IH; [discriminate | reflexivity].
Qed.

(** A node that a path leads to keeps its project name through any later
    insertion. *)
Lemma descend_insert_kept (segs : list string) :
  forall parts rf pn cur n,
    descend segs cur = Some n ->
    exists n',
      descend segs (insertParts parts rf pn cur) = Some n'
      /\ projectName n' = projectName n.
Proof.
  induction segs as [|seg rest IH]; intros parts rf pn cur n Hd; [discriminate|].
  destruct parts as [|part prest]; [now exists n|].
  rewrite descend_cons in Hd.
  destruct (findByName seg cur) as [e|] eqn:Hseg; [|discriminate].
  destruct (findByName part cur) as [e2|] eqn:Hpart.
  - rewrite (insertParts_found _ _ _ _ _ _ Hpart), descend_cons.
    destruct (String.eqb_spec seg part) as [->|Hne].
    + erewrite findByName_updateFirst_same; [|reflexivity|exact Hseg].
      destruct rest as [|s' rest'].
      * injection Hd as <-. eexists. split; reflexivity.
      * apply IH. exact Hd.
    + rewrite findByName_updateFirst_other by (reflexivity || exact Hne).
      rewrite Hseg.
      exists n. split; [exact Hd | reflexivity].
  - rewrite (insertParts_missing _ _ _ _ _ Hpart), descend_cons.
    rewrite (findByName_app_found _ _ _ _ Hseg).
    exists n. split; [exact Hd | reflexivity].
Qed.

(** A path that leads nowhere still leads nowhere after the insertion of a
    path it is not a prefix of. *)
Lemma descend_insert_absent (segs : list string) :
  forall parts rf pn cur,
    descend segs cur = None ->
    isPrefixOf segs parts = false ->
    descend segs (insertParts parts rf pn cur) = None.
Proof.
  induction segs as [|seg rest IH]; intros parts rf pn cur Hd Hpre; [reflexivity|].
  destruct parts as [|part prest]; [exact Hd|].
  simpl in Hpre. rewrite descend_cons in Hd.
  destruct (findByName part cur) as [e2|] eqn:Hpart.
  - rewrite (insertParts_found _ _ _ _ _ _ Hpart), descend_cons.
    destruct (String.eqb_spec seg part) as [->|Hne].
    + erewrite findByName_updateFirst_same; [|reflexivity|exact Hpart].
      rewrite Hpart in Hd. simpl in Hpre.
      destruct rest as [|s' rest']; [discriminate|].
      apply IH; assumption.
    + rewrite findByName_updateFirst_other by (reflexivity || exact Hne).
      exact Hd.
  - rewrite (insertParts_missing _ _ _ _ _ Hpart), descend_cons.
    destruct (findByName seg cur) as [e|] eqn:Hseg.
    + rewrite (findByName_app_found _ _ _ _ Hseg). exact Hd.
    + rewrite (findByName_app_missing _ _ _ Hseg). simpl nodeName.
      destruct (String.eqb_spec part seg) as [->|Hne]; [|reflexivity].
      rewrite String.eqb_refl in Hpre. simpl in Hpre.
      destruct rest as [|s' rest']; [discriminate|].
      apply IH; [reflexivity | exact Hpre].
Qed.

Lemma descend_fold_absent (segs : list string) (pre : list Project) :
  forall cur,
    descend segs cur = None ->
    (forall e, In e pre -> isPrefixOf segs (pathParts e) = false) ->
    descend segs (fold_left insertProject pre cur) = None.
Proof.
  induction pre as [|e pre IH]; intros cur Hd Hpre; simpl; [exact Hd|].
  apply IH.
  - apply descend_insert_absent; [exact Hd | apply Hpre; now left].
  - intros e' He'. apply Hpre. now right.
Qed.

Lemma descend_fold_kept (segs : list string) (post : list Project) :
  forall cur n,
    descend segs cur = Some n ->
    exists n',
      descend segs (fold_left insertProject post cur) = Some n'
      /\ projectName n' = projectName n.
Proof.
  induction post as [|e post IH]; intros cur n Hd; simpl; [now exists n|].
  destruct (descend_insert_kept segs (pathParts e) (isRootPath e) (name e) cur n Hd)
    as [n1 [Hd1 Hn1]].
  destruct (IH _ _ Hd1) as [n2 [Hd2 Hn2]].
  exists n2. split; [exact Hd2 | congruence].
Qed.

Lemma pathSegments_nonroot (p : string) :
  p <> "" -> pathSegments p = Js.split "/" p.
Proof.
  intros Hp. unfold pathSegments.
  apply String.eqb_neq in Hp. now rewrite Hp.
Qed.

Lemma traverse_nonempty (r : Node) (segs : list string) :
  segs <> [] -> traverse r segs = descend segs (orEmpty (inner r)).
Proof. destruct segs; [congruence | reflexivity]. Qed.

(** C1 (as stated) fails.  With the root project first, [e2e] at
    [apps/web/e2e] and then [web] at [apps/web], the node of [apps/web]
    exists when [web] is inserted, so it never receives a project name; with
    [pkg-a] first and the root project second, the root project's node is
    pushed below [packages].  In both forests the project is reached
    neither from a top-level node through [inner] nor along the forest. *)
Lemma unreached_projects :
  ~ (reachesProject
       (createNodeTree [Samples.rootProject; Samples.e2e; Samples.web])
       Samples.web
     \/ reachesAlongForest
          (createNodeTree [Samples.rootProject; Samples.e2e; Samples.web])
          Samples.web)
  /\ ~ (reachesProject
          (createNodeTree [Samples.pkgA; Samples.rootProject])
          Samples.rootProject
        \/ reachesAlongForest
             (createNodeTree [Samples.pkgA; Samples.rootProject])
             Samples.rootProject).
Proof.
  split.
  - intros [[r [n [Hin [Htr Hpn]]]] | [n [Hd _]]].
    + vm_compute in Hin. destruct Hin as [<-|[]].
      vm_compute in Htr. injection Htr as <-. discriminate Hpn.
    + vm_compute in Hd. discriminate Hd.
  - intros [[r [n [Hin [Htr Hpn]]]] | [n [Hd _]]].
    + vm_compute in Hin. destruct Hin as [<-|[]].
      vm_compute in Htr. injection Htr as <-. discriminate Hpn.
    + vm_compute in Hd. discriminate Hd.
Qed.

(** C1 (amended). When the first project of the list is the root project
    (empty path), the single top-level node carries its name, and every
    later project with a non-empty path whose segments are not a prefix of
    the segments of a project listed between the root and itself is reached
    from that node through [inner] by its segments, at a node whose
    [projectName] is the project's name. *)
Theorem root_first_projects_reachable
    (p0 q : Project) (pre post : list Project) :
  path p0 = "" ->
  path q <> "" ->
  (forall e, In e pre -> isPrefixOf (pathParts q) (pathParts e) = false) ->
  reachesProject (createNodeTree (p0 :: pre ++ q :: post)) p0
  /\ reachesProject (createNodeTree (p0 :: pre ++ q :: post)) q.
Proof.
  intros Hp0 Hq Hpre.
  rewrite (createNodeTree_root_first p0 _ Hp0).
  split.
  - eexists. eexists. split; [now left|].
    rewrite Hp0. split; reflexivity.
  - rewrite fold_left_app. cbn [fold_left].
    assert (Hsegs : pathParts q <> []) by apply split_nonempty.
    pose proof (descend_fold_absent (pathParts q) pre [] 
                  ltac:(destruct (pathParts q); [congruence | reflexivity]) Hpre)
      as Habsent.
    destruct (descend_insert_fresh (pathParts q) (isRootPath q) (name q)
                _ Hsegs Habsent) as [n [Hd Hn]].
    destruct (descend_fold_kept (pathParts q) post _ _ Hd) as [n' [Hd' Hn']].
    eexists. exists n'. split; [now left|]. split; [|congruence].
    rewrite (pathSegments_nonroot _ Hq).
    fold (pathParts q). rewrite (traverse_nonempty _ _ Hsegs).
    exact Hd'.
Qed.

Lemma root_first_projects_reachable_witness :
  reachesProject
    (createNodeTree [Samples.rootProject; Samples.web; Samples.e2e; Samples.pkgA])
    Samples.rootProject
  /\ reachesProject
       (createNodeTree [Samples.rootProject; Samples.web; Samples.e2e; Samples.pkgA])
       Samples.e2e.
Proof.
  apply (root_first_projects_reachable Samples.rootProject Samples.e2e
           [Samples.web] [Samples.pkgA]).
  - reflexivity.
  - discriminate.
  - intros e [<-|[]]. reflexivity.
Defined.

(** ** Map and Set invariants *)

Lemma has_In (x : string) (s : list string) : JsSet.has x s = true <-> In x s.
Proof.
  unfold JsSet.has. rewrite existsb_exists. split.
  - intros [y [Hy He]]. apply String.eqb_eq in He. now subst.
  - intros H. exists x. split; [exact H | apply String.eqb_refl].
Qed.

Lemma add_NoDup (x : string) (s : list string) : NoDup s -> NoDup (JsSet.add x s).
Proof.
  intros Hs. unfold JsSet.add. destruct (JsSet.has x s) eqn:E; [exact Hs|].
  apply NoDup_app; [exact Hs | repeat constructor; intros [] |].
  intros a Ha [Hx|[]]. subst a.
  apply (proj2 (has_In x s)) in Ha. congruence.
Qed.

Lemma fold_add_NoDup (xs : list string) :
  forall s, NoDup s -> NoDup (fold_left (fun s dep => JsSet.add dep s) xs s).
Proof.
  induction xs as [|x xs IH]; intros s Hs; simpl; [exact Hs|].
  apply IH, add_NoDup, Hs.
Qed.

Section MapInvariant.

Context {V : Type}.





End MapInvariant.



(** ** generateDependencyGraph: what the text depends on *)

Lemma has_filter (P : string -> bool) (x : string) (s : list string) :
  P x = true -> JsSet.has x (filter P s) = JsSet.has x s.
Proof.
  intros Hx. apply eq_true_iff_eq. rewrite !has_In, filter_In. tauto.
Qed.

Lemma filter_add (P : string -> bool) (x : string) (s : list string) :
  filter P (JsSet.add x s)
  = if P x then JsSet.add x (filter P s) else filter P s.
Proof.
  unfold JsSet.add. destruct (P x) eqn:Hx.
  - rewrite (has_filter P x s Hx).
    destruct (JsSet.has x s); [reflexivity|].
    rewrite filter_app. simpl. now rewrite Hx.
  - destruct (JsSet.has x s); [reflexivity|].
    rewrite filter_app. simpl. rewrite Hx. apply app_nil_r.
Qed.

Lemma filter_fold_add (P : string -> bool) (xs : list string) :
  forall s,
    filter P (fold_left (fun s dep => JsSet.add dep s) xs s)
    = fold_left (fun s dep => JsSet.add dep s) (filter P xs) (filter P s).
Proof.
  induction xs as [|x xs IH]; intros s; simpl; [reflexivity|].
  rewrite IH, filter_add. destruct (P x); reflexivity.
Qed.

Lemma get_liveTargets (k : string) (m : JsMap.t (list string)) :
  JsMap.get k (liveTargets m) = option_map (filter Js.truthy) (JsMap.get k m).
Proof.
  induction m as [|[k' v'] m IH]; simpl; [reflexivity|].
  destruct (k' =? k); [reflexivity | exact IH].
Qed.

Lemma set_liveTargets (k : string) (v : list string) (m : JsMap.t (list string)) :
  liveTargets (JsMap.set k v m) = JsMap.set k (filter Js.truthy v) (liveTargets m).
Proof.
  induction m as [|[k' v'] m IH]; simpl; [reflexivity|].
  destruct (k' =? k); simpl; [reflexivity | now rewrite IH].
Qed.

Lemma edgeTargets_live (k : string) (ds : list string) :
  edgeTargets k (filter Js.truthy ds) = edgeTargets k ds.
Proof.
  unfold edgeTargets. induction ds as [|d ds IH]; simpl; [reflexivity|].
  destruct (Js.truthy d) eqn:Hd; simpl; [|exact IH].
  rewrite Hd. simpl. destruct (negb (d =? k)); now rewrite IH.
Qed.

Lemma edgeStatements_live (m : JsMap.t (list string)) :
  map edgeStatement (liveTargets m) = map edgeStatement m.
Proof.
  unfold liveTargets. rewrite map_map. apply map_ext.
  intros [k ds]. unfold edgeStatement. simpl. now rewrite edgeTargets_live.
Qed.

Lemma external_resolves_to_nothing (projects : WorkspaceProjects) (dep : string) :
  isWorkspaceName projects dep = false -> resolveDependency projects dep = "".
Proof.
  unfold isWorkspaceName, resolveDependency.
  induction projects as [|p ps IH]; simpl; [reflexivity|].
  destruct (name p =? dep); [discriminate | exact IH].
Qed.

Lemma live_resolved_internal (projects : WorkspaceProjects) (deps : list string) :
  filter Js.truthy
    (map (resolveDependency projects) (filter (isWorkspaceName projects) deps))
  = filter Js.truthy (map (resolveDependency projects) deps).
Proof.
  induction deps as [|d deps IH]; simpl; [reflexivity|].
  destruct (isWorkspaceName projects d) eqn:Hd; simpl.
  - now rewrite IH.
  - rewrite (external_resolves_to_nothing _ _ Hd). exact IH.
Qed.

Section SameNamesAndPaths.

(** A change of the projects that keeps names and paths, and keeps the
    non-empty subgraph keys their dependencies resolve to. *)
Variable projects : WorkspaceProjects.
Variable f : Project -> Project.
Hypothesis f_name : forall p, name (f p) = name p.
Hypothesis f_path : forall p, path (f p) = path p.
Hypothesis f_targets : forall p,
  filter Js.truthy
    (map (resolveDependency projects) (dependencies (f p) ++ devDependencies (f p)))
  = filter Js.truthy
      (map (resolveDependency projects) (dependencies p ++ devDependencies p)).

Lemma ownGet_relabel (k : string) (o : JsObject.t (list Project)) :
  JsObject.ownGet k (relabel f o) = option_map (map f) (JsObject.ownGet k o).
Proof.
  induction o as [|[k' v] o IH]; simpl; [reflexivity|].
  destruct (k' =? k); [reflexivity | exact IH].
Qed.

Lemma ownUpdate_relabel (k : string) (p : Project) (o : JsObject.t (list Project)) :
  JsObject.ownUpdate k (fun l => l ++ [f p]) (relabel f o)
  = relabel f (JsObject.ownUpdate k (fun l => l ++ [p]) o).
Proof.
  induction o as [|[k' v] o IH]; simpl; [reflexivity|].
  destruct (k' =? k); simpl.
  - now rewrite map_app.
  - now rewrite IH.
Qed.

Lemma groupStep_relabel (o : JsObject.t (list Project)) (p : Project) :
  groupStep (relabel f o) (f p) = relabelled f (groupStep o p).
Proof.
  unfold groupStep. cbv zeta. rewrite f_path.
  destruct (firstSegment (path p) =? ""); [reflexivity|].
  rewrite ownGet_relabel.
  destruct (JsObject.ownGet (firstSegment (path p)) o); simpl.
  - now rewrite ownUpdate_relabel.
  - destruct (JsObject.inherited (firstSegment (path p))); simpl; [reflexivity|].
    unfold relabel. now rewrite map_app.
Qed.

Lemma forEachM_groupStep_relabel (l : list Project) :
  forall o,
    forEachM groupStep (map f l) (relabel f o)
    = relabelled f (forEachM groupStep l o).
Proof.
  induction l as [|p l IH]; intros o; simpl; [reflexivity|].
  rewrite groupStep_relabel.
  destruct (groupStep o p) as [o'|msg]; simpl; [apply IH | reflexivity].
Qed.

Lemma insertByIndex_relabel (n : N) (k : string) (v : list Project)
    (l : list (N * (string * list Project))) :
  JsObject.insertByIndex n (k, map f v) (relabelIndexed f l)
  = relabelIndexed f (JsObject.insertByIndex n (k, v) l).
Proof.
  induction l as [|[m [k' v']] l IH]; simpl; [reflexivity|].
  destruct (n <=? m)%N; simpl; [reflexivity|].
  now rewrite <- IH.
Qed.

Lemma indexed_relabel (o : JsObject.t (list Project)) :
  JsObject.indexed (relabel f o) = relabelIndexed f (JsObject.indexed o).
Proof.
  induction o as [|[k v] o IH]; simpl; [reflexivity|].
  destruct (JsObject.arrayIndex k); [|exact IH].
  rewrite IH. apply insertByIndex_relabel.
Qed.

Lemma named_relabel (o : JsObject.t (list Project)) :
  JsObject.named (relabel f o) = relabel f (JsObject.named o).
Proof.
  unfold JsObject.named.
  induction o as [|[k v] o IH]; simpl; [reflexivity|].
  destruct (JsObject.arrayIndex k); simpl; now rewrite IH.
Qed.

Lemma entries_relabel (o : JsObject.t (list Project)) :
  JsObject.entries (relabel f o) = relabel f (JsObject.entries o).
Proof.
  unfold JsObject.entries. rewrite indexed_relabel, named_relabel.
  unfold relabel at 2. rewrite map_app. f_equal.
  unfold relabelIndexed. rewrite !map_map. reflexivity.
Qed.

Lemma nodeDeclaration_relabel (p : Project) :
  nodeDeclaration (f p) = nodeDeclaration p.
Proof. unfold nodeDeclaration. now rewrite f_name. Qed.

Lemma subgraphBlocks_relabel (o : JsObject.t (list Project)) :
  map subgraphBlock (JsObject.entries (relabel f o))
  = map subgraphBlock (JsObject.entries o).
Proof.
  rewrite entries_relabel. unfold relabel. rewrite map_map.
  apply map_ext. intros [k v]. unfold subgraphBlock. cbn [fst snd].
  rewrite map_map, (map_ext _ _ nodeDeclaration_relabel). reflexivity.
Qed.

Lemma find_relabel (dep : string) (l : list Project) :
  find (fun p => name p =? dep) (map f l)
  = option_map f (find (fun p => name p =? dep) l).
Proof.
  induction l as [|p l IH]; simpl; [reflexivity|].
  rewrite f_name. destruct (name p =? dep); [reflexivity | exact IH].
Qed.

Lemma resolveDependency_relabel (dep : string) :
  resolveDependency (map f projects) dep = resolveDependency projects dep.
Proof.
  unfold resolveDependency. rewrite find_relabel.
  destruct (find (fun p => name p =? dep) projects); simpl;
    [now rewrite f_path | reflexivity].
Qed.

Lemma dependencyStep_live (m m' : JsMap.t (list string)) (p : Project) :
  liveTargets m' = liveTargets m ->
  liveTargets (dependencyStep (map f projects) m' (f p))
  = liveTargets (dependencyStep projects m p).
Proof.
  intros Hm. unfold dependencyStep. cbv zeta. rewrite f_path.
  destruct (path p =? ""); [exact Hm|].
  rewrite !set_liveTargets, !filter_fold_add, Hm.
  rewrite (map_ext _ _ resolveDependency_relabel), f_targets.
  f_equal. f_equal.
  pose proof (get_liveTargets (firstSegment (path p)) m') as H'.
  pose proof (get_liveTargets (firstSegment (path p)) m) as H.
  rewrite Hm, H in H'.
  destruct (JsMap.get (firstSegment (path p)) m'),
           (JsMap.get (firstSegment (path p)) m); simpl in H';
    congruence.
Qed.

Lemma fold_dependencyStep_live (l : list Project) :
  forall m m',
    liveTargets m' = liveTargets m ->
    liveTargets (fold_left (dependencyStep (map f projects)) (map f l) m')
    = liveTargets (fold_left (dependencyStep projects) l m).
Proof.
  induction l as [|p l IH]; intros m m' Hm; simpl; [exact Hm|].
  apply IH, dependencyStep_live, Hm.
Qed.

Lemma generateDependencyGraph_relabel :
  generateDependencyGraph (map f projects) = generateDependencyGraph projects.
Proof.
  unfold generateDependencyGraph, groupProjects.
  change (@nil (string * list Project)) with (relabel f []) at 1.
  rewrite forEachM_groupStep_relabel.
  destruct (forEachM groupStep projects []) as [o|msg]; simpl; [|reflexivity].
  rewrite subgraphBlocks_relabel.
  rewrite <- (edgeStatements_live (subgraphDependencies (map f projects))).
  unfold subgraphDependencies at 1.
  rewrite (fold_dependencyStep_live projects [] [] eq_refl).
  fold (subgraphDependencies projects).
  now rewrite edgeStatements_live.
Qed.

End SameNamesAndPaths.

(** C5. A dependency name that matches no project name contributes nothing:
    the graph text of a workspace equals the text of the same workspace with
    every such name removed from the dependency lists.  For [@x/core] at
    [packages/core] and [@x/api] at [services/api] depending on [@x/core]
    and [left-pad], the text has the two subgraphs [packages] and
    [services], the single edge from [services] to [packages], and no
    occurrence of [left-pad]. *)
Theorem external_dependencies_dropped :
  (forall projects,
     generateDependencyGraph (map (dropExternal projects) projects)
     = generateDependencyGraph projects)
  /\ generateDependencyGraph [Samples.core; Samples.api]
     = Returned Samples.coreApiGraph
  /\ Js.includes "left-pad" Samples.coreApiGraph = false.
Proof.
  split; [|split; reflexivity].
  intros projects. apply generateDependencyGraph_relabel.
  - reflexivity.
  - reflexivity.
  - intros p. unfold dropExternal. cbn [dependencies devDependencies].
    rewrite !map_app, !filter_app, !live_resolved_internal. reflexivity.
Qed.

(** ** getPnpmWorkspaceProjects: records without a name *)

Lemma unnamed_entry_rejected (j : Json) :
  hasNonEmptyName j = false -> workspaceEntrySchema j = None.
Proof.
  destruct j as [| | | |items|members]; try reflexivity.
  unfold hasNonEmptyName, workspaceEntrySchema, Zod.requiredField.
  destruct (JsObject.ownGet "name" members) as [[| | |s| |]|]; try reflexivity.
  unfold Zod.stringMin1. intros ->. reflexivity.
Qed.

Lemma each_rejects (items : list Json) :
  existsb (fun j => negb (hasNonEmptyName j)) items = true ->
  Zod.each workspaceEntrySchema items = None.
Proof.
  induction items as [|j items IH]; simpl; [discriminate|].
  destruct (hasNonEmptyName j) eqn:Hj; simpl.
  - intros H. rewrite (IH H). now destruct (workspaceEntrySchema j).
  - intros _. now rewrite (unnamed_entry_rejected j Hj).
Qed.

(** C9 (as stated) fails: for a listing whose only record has the empty
    name, [getPnpmWorkspaceProjects] does not throw. *)
Lemma unnamed_record_not_thrown :
  ~ exists message,
      getPnpmWorkspaceProjects Samples.unnamedListing Samples.noFiles
        Samples.joinSlash Samples.relativeTo "/repo"
      = Threw message.
Proof. intros [message H]. vm_compute in H. discriminate H. Qed.

(** C9 (amended). When a record of the listing lacks a non-empty name, the
    validation error is caught inside [getPnpmWorkspaceProjects], which
    returns the empty list; the command then stops before any tree or graph
    is generated. *)
Theorem unnamed_record_yields_no_projects
    (pnpmList readJsonFile : string -> option Json)
    (pathJoin pathRelative : string -> string -> string)
    (rootPath : string) (items : list Json) :
  pnpmList rootPath = Some (JArray items) ->
  existsb (fun j => negb (hasNonEmptyName j)) items = true ->
  getPnpmWorkspaceProjects pnpmList readJsonFile pathJoin pathRelative rootPath
  = Returned []
  /\ actionBlocks pnpmList readJsonFile pathJoin pathRelative rootPath
     = Returned None.
Proof.
  intros Hlist Hbad.
  assert (Hget : getPnpmWorkspaceProjects pnpmList readJsonFile pathJoin
                   pathRelative rootPath = Returned []).
  { unfold getPnpmWorkspaceProjects, readWorkspace. rewrite Hlist.
    unfold WorkspaceProjectSchema, Zod.array. now rewrite (each_rejects _ Hbad). }
  split; [exact Hget|].
  unfold actionBlocks. now rewrite Hget.
Qed.

Lemma unnamed_record_yields_no_projects_witness :
  getPnpmWorkspaceProjects Samples.unnamedListing Samples.noFiles
    Samples.joinSlash Samples.relativeTo "/repo"
  = Returned []
  /\ actionBlocks Samples.unnamedListing Samples.noFiles
       Samples.joinSlash Samples.relativeTo "/repo"
     = Returned None.
Proof.
  apply (unnamed_record_yields_no_projects Samples.unnamedListing Samples.noFiles
           Samples.joinSlash Samples.relativeTo "/repo"
           [ JObject [("name", JString ""); ("path", JString "/repo/packages/a")] ]);
    reflexivity.
Defined.

(** * Further properties of the code *)

(** ** sanitizeMermaid *)

Lemma sanitize_append (a b : string) :
  sanitizeMermaid (a +++ b) = sanitizeMermaid a +++ sanitizeMermaid b.
Proof. induction a as [|c a IH]; simpl; [reflexivity | now rewrite IH]. Qed.

Lemma sanitize_char_collision (c d : ascii) :
  (if mermaidUnsafe c then "_"%char else c) = (if mermaidUnsafe d then "_"%char else d)
  <-> Ascii.eqb c d || (mapsToUnderscore c && mapsToUnderscore d) = true.
Proof.
  unfold mapsToUnderscore.
  destruct (Ascii.eqb_spec c d) as [->|Hne]; [simpl; tauto|].
  simpl.
  destruct (mermaidUnsafe c) eqn:Hc, (mermaidUnsafe d) eqn:Hd; simpl.
  - tauto.
  - destruct (Ascii.eqb_spec d "_"%char) as [->|Hd']; split; congruence.
  - destruct (Ascii.eqb_spec c "_"%char) as [->|Hc']; simpl.
    + tauto.
    + split; congruence.
  - destruct (Ascii.eqb_spec c "_"%char) as [->|Hc'],
             (Ascii.eqb_spec d "_"%char) as [->|Hd']; simpl;
      split; congruence.
Qed.

(** X1. The identifier produced by [sanitizeMermaid] never holds an at-sign,
    a slash or a dash, has the length of the name, and the identifier of a
    concatenation is the concatenation of the identifiers. *)
Theorem sanitizeMermaid_shape (a b : string) :
  noneUnsafe (sanitizeMermaid a) = true
  /\ String.length (sanitizeMermaid a) = String.length a
  /\ sanitizeMermaid (a +++ b) = sanitizeMermaid a +++ sanitizeMermaid b.
Proof.
  split; [apply sanitize_clean|]. split; [|apply sanitize_append].
  induction a as [|c a IH]; simpl; [reflexivity | now rewrite IH].
Qed.

(** X2. Two project names receive the same identifier exactly when they have
    the same length and differ only at positions where each holds one of
    at-sign, slash, dash and underscore. *)
Theorem sanitizeMermaid_collisions (s t : string) :
  sanitizeMermaid s = sanitizeMermaid t <-> sameIdentifier s t = true.
Proof.
  revert t. induction s as [|c s IH]; intros [|d t]; simpl;
    try (split; [discriminate | discriminate]); [tauto|].
  rewrite andb_true_iff, <- IH, <- sanitize_char_collision.
  split.
  - intros [= Hc Hs]. now split.
  - intros [Hc Hs]. now rewrite Hc, Hs.
Qed.

(** ** createNodeTree: invariants of the forest *)

Lemma everyNode_unfold (P : Node -> Prop) (n : Node) :
  everyNode P n <-> P n /\ Forall (everyNode P) (orEmpty (inner n)).
Proof.
  destruct n as [i nm pn rt]. simpl.
  assert (H : forall l,
             (fix each (l : list Node) : Prop :=
                match l with
                | [] => True
                | c :: cs => everyNode P c /\ each cs
                end) l <-> Forall (everyNode P) l).
  { induction l as [|c cs IH]; simpl.
    - split; [constructor | trivial].
    - rewrite IH. split.
      + intros [Hc Hcs]. now constructor.
      + intros HF. inversion HF; subst. now split. }
  destruct i as [l|]; simpl.
  - now rewrite H.
  - split; [intros [HP _]; split; [exact HP | constructor] | intros [HP _]; now split].
Qed.

(** Induction over a tree of nodes: a property that holds of a node
    whenever it holds of its children holds of every node. *)
Lemma Node_tree_ind (P : Node -> Prop) :
  (forall n, Forall P (orEmpty (inner n)) -> P n) -> forall n, P n.
Proof.
  intros H. fix IH 1. intros [i nm pn rt]. apply H. simpl.
  destruct i as [l|]; simpl; [|constructor].
  induction l as [|c cs IHl]; constructor; [apply IH | exact IHl].
Qed.

Lemma everyNode_weaken (P Q : Node -> Prop) :
  (forall n, P n -> Q n) -> forall n, everyNode P n -> everyNode Q n.
Proof.
  intros HPQ n. induction n as [n IH] using Node_tree_ind.
  rewrite !everyNode_unfold. intros [HP Hrest]. split; [now apply HPQ|].
  rewrite Forall_forall in *. intros c Hc. apply IH; auto.
Qed.

Lemma updateFirst_names (p : Node -> bool) (f : Node -> Node) (l : list Node) :
  (forall x, nodeName (f x) = nodeName x) ->
  map nodeName (updateFirst p f l) = map nodeName l.
Proof.
  intros Hf. induction l as [|x l IH]; simpl; [reflexivity|].
  destruct (p x); simpl; [now rewrite Hf | now rewrite IH].
Qed.

Lemma updateFirst_Forall (Q : Node -> Prop) (p : Node -> bool) (f : Node -> Node)
    (l : list Node) :
  (forall x, Q x -> Q (f x)) -> Forall Q l -> Forall Q (updateFirst p f l).
Proof.
  intros Hf. induction l as [|x l IH]; simpl; intros HQ; [constructor|].
  inversion HQ; subst. destruct (p x); constructor; auto.
Qed.

Lemma findByName_none_notin (part : string) (cur : list Node) :
  findByName part cur = None -> ~ In part (map nodeName cur).
Proof.
  unfold findByName. intros Hnone Hin.
  apply in_map_iff in Hin as [x [Hx Hin]].
  pose proof (find_none _ _ Hnone x Hin) as H. simpl in H.
  rewrite Hx, String.eqb_refl in H. discriminate.
Qed.

(** The inner loop keeps sibling names distinct and every node well built,
    provided the root flag is only raised for the one-segment empty path. *)
Lemma insertParts_wellBuilt (parts : list string) (rf : bool) (pn : string) :
  forall cur,
    (rf = true -> parts = [] \/ parts = [""]) ->
    NoDup (map nodeName cur) ->
    Forall (everyNode wellBuilt) cur ->
    NoDup (map nodeName (insertParts parts rf pn cur))
    /\ Forall (everyNode wellBuilt) (insertParts parts rf pn cur).
Proof.
  induction parts as [|part rest IH]; intros cur Hrf Hnames Hall; [now split|].
  assert (Hrest : rf = true -> rest = [] \/ rest = [""]).
  { intros Ht. destruct (Hrf Ht) as [H|H]; [discriminate|].
    injection H as _ ->. now left. }
  destruct (findByName part cur) as [e|] eqn:Hfind.
  - rewrite (insertParts_found _ _ _ _ _ _ Hfind). split.
    + now rewrite updateFirst_names.
    + apply updateFirst_Forall; [|exact Hall].
      intros x Hx. apply everyNode_unfold in Hx as [[Hi [Hs Hr]] Hchildren].
      destruct (IH (orEmpty (inner x)) Hrest Hs Hchildren) as [Hn Hf].
      apply everyNode_unfold. split; [|exact Hf].
      split; [discriminate|]. split; [exact Hn | exact Hr].
  - rewrite (insertParts_missing _ _ _ _ _ Hfind).
    destruct (IH [] Hrest (NoDup_nil _) (Forall_nil _)) as [Hn Hf].
    split.
    + rewrite map_app. simpl. apply NoDup_app; [exact Hnames | | ].
      * repeat constructor. intros [].
      * intros a Ha [Hx|[]]. subst a.
        exact (findByName_none_notin _ _ Hfind Ha).
    + apply Forall_app. split; [exact Hall|]. constructor; [|constructor].
      apply everyNode_unfold. split; [|exact Hf].
      split; [discriminate|]. split; [exact Hn|].
      intros Ht. simpl in Ht. subst rf.
      destruct (Hrf eq_refl) as [H|H]; [discriminate|].
      injection H as -> ->. simpl. split; [reflexivity | discriminate].
Qed.

Lemma rootFlag_parts (p : Project) :
  isRootPath p = true -> pathParts p = [] \/ pathParts p = [""].
Proof.
  unfold isRootPath, pathParts. intros H. apply String.eqb_eq in H.
  rewrite H. now right.
Qed.

Lemma insertProject_wellBuilt (cur : list Node) (p : Project) :
  NoDup (map nodeName cur) ->
  Forall (everyNode wellBuilt) cur ->
  NoDup (map nodeName (insertProject cur p))
  /\ Forall (everyNode wellBuilt) (insertProject cur p).
Proof. intros. apply insertParts_wellBuilt; auto using rootFlag_parts. Qed.

Lemma createNodeStep_shape (tree : list Node) (p : Project) :
  forestShape tree ->
  exists r, createNodeStep tree p = [r] /\ everyNode wellBuilt r.
Proof.
  intros [->|[r [-> Hr]]].
  - unfold createNodeStep. fold (insertProject [] p).
    destruct (insertProject_wellBuilt [] p (NoDup_nil _) (Forall_nil _)) as [_ Hf].
    unfold insertProject in *.
    destruct (pathParts p) as [|s ss] eqn:Hparts;
      [exfalso; exact (split_nonempty _ _ Hparts)|].
    rewrite (insertParts_missing s ss _ _ [] eq_refl) in *.
    simpl app in *. eexists. split; [reflexivity|].
    now inversion Hf.
  - unfold createNodeStep.
    destruct (inner r) as [cur|] eqn:Hi; [|now exists r].
    eexists. split; [reflexivity|].
    apply everyNode_unfold in Hr as [[_ [Hs Hroot]] Hchildren].
    unfold siblingsDistinct in Hs.
    rewrite Hi in Hs, Hchildren. simpl in Hs, Hchildren.
    destruct (insertProject_wellBuilt cur p Hs Hchildren) as [Hn Hf].
    apply everyNode_unfold. split; [|exact Hf].
    split; [discriminate|]. split; [exact Hn | exact Hroot].
Qed.

Lemma createNodeTree_shape (projects : WorkspaceProjects) :
  forestShape (createNodeTree projects).
Proof.
  unfold createNodeTree.
  assert (H : forall l tree, forestShape tree ->
                forestShape (fold_left createNodeStep l tree)).
  { induction l as [|p l IH]; intros tree Ht; simpl; [exact Ht|].
    apply IH. right. now apply createNodeStep_shape. }
  apply H. now left.
Qed.

Lemma createNodeTree_wellBuilt (projects : WorkspaceProjects) :
  Forall (everyNode wellBuilt) (createNodeTree projects).
Proof.
  destruct (createNodeTree_shape projects) as [->|[r [-> Hr]]];
    [constructor | now repeat constructor].
Qed.

Lemma createNodeStep_top_name (r : Node) (others : list Node) (q : Project) :
  exists r', createNodeStep (r :: others) q = r' :: others
             /\ nodeName r' = nodeName r.
Proof.
  unfold createNodeStep. destruct (inner r); eexists; split; reflexivity.
Qed.

Lemma fold_createNodeStep_top_name (rest : list Project) :
  forall r, exists r',
    fold_left createNodeStep rest [r] = [r'] /\ nodeName r' = nodeName r.
Proof.
  induction rest as [|q rest IH]; intros r; cbn [fold_left]; [now exists r|].
  destruct (createNodeStep_top_name r [] q) as [r1 [-> H1]].
  destruct (IH r1) as [r2 [H2 H2']]. exists r2. split; [exact H2 | congruence].
Qed.

Lemma createNodeTree_single_top_helper (p : Project) (rest : list Project) :
  exists r, createNodeTree (p :: rest) = [r].
Proof.
  unfold createNodeTree. cbn [fold_left].
  assert (H0 : exists r0, createNodeStep [] p = [r0]).
  { unfold createNodeStep, pathParts.
    destruct (Js.split "/" (path p)) as [|s ss] eqn:Hparts;
      [exfalso; exact (split_nonempty _ _ Hparts)|].
    rewrite (insertParts_missing s ss _ _ [] eq_refl).
    eexists. reflexivity. }
  destruct H0 as [r0 ->].
  destruct (fold_createNodeStep_top_name rest r0) as [r [Hr _]].
  now exists r.
Qed.

(** X3. For a non-empty project list the tree has exactly one top-level
    node, named after the first path segment of the first project: every
    later project is placed below it, wherever its own path starts. *)
Theorem createNodeTree_single_top (p : Project) (rest : list Project) :
  exists r,
    createNodeTree (p :: rest) = [r]
    /\ nodeName r = firstSegment (path p).
Proof.
  unfold createNodeTree. cbn [fold_left].
  assert (H0 : exists r0, createNodeStep [] p = [r0]
                          /\ nodeName r0 = firstSegment (path p)).
  { unfold createNodeStep, firstSegment, pathParts.
    destruct (Js.split "/" (path p)) as [|s ss] eqn:Hparts;
      [exfalso; exact (split_nonempty _ _ Hparts)|].
    rewrite (insertParts_missing s ss _ _ [] eq_refl).
    eexists. split; reflexivity. }
  destruct H0 as [r0 [-> Hn0]].
  destruct (fold_createNodeStep_top_name rest r0) as [r [Hr Hn]].
  exists r. split; [exact Hr | congruence].
Qed.

(** X4. In the tree built from any project list no two siblings share a
    name, at the top level and below every node. *)
Theorem createNodeTree_siblings_distinct (projects : WorkspaceProjects) :
  NoDup (map nodeName (createNodeTree projects))
  /\ Forall (everyNode siblingsDistinct) (createNodeTree projects).
Proof.
  split.
  - destruct (createNodeTree_shape projects) as [->|[r [-> _]]]; simpl.
    + constructor.
    + repeat constructor. intros [].
  - eapply Forall_impl; [|apply createNodeTree_wellBuilt].
    intros n. apply everyNode_weaken. intros m [_ [H _]]. exact H.
Qed.

(** X5. Every node of the tree built from any project list has a defined
    child array, and every node flagged [root] has the empty segment name
    and carries a project name, so the renderer never falls back to its
    placeholder for such a tree. *)
Theorem createNodeTree_nodes_complete (projects : WorkspaceProjects) :
  Forall (everyNode (fun n => innerDefined n /\ rootLabelled n))
    (createNodeTree projects).
Proof.
  eapply Forall_impl; [|apply createNodeTree_wellBuilt].
  intros n. apply everyNode_weaken. intros m [Hi [_ Hr]]. now split.
Qed.

Lemma updateFirst_fixed (s : string) (f : Node -> Node) (l : list Node) (e : Node) :
  findByName s l = Some e -> f e = e ->
  updateFirst (fun c => nodeName c =? s) f l = l.
Proof.
  unfold findByName. induction l as [|x l IH]; simpl; [discriminate|].
  destruct (nodeName x =? s).
  - intros [= ->] ->. reflexivity.
  - intros H Hf. now rewrite (IH H Hf).
Qed.

Lemma withInner_same (e : Node) (children : list Node) :
  inner e = Some children -> withInner e children = e.
Proof. destruct e as [i nm pn rt]. simpl. now intros ->. Qed.

(** Inserting along a path that already leads to a node changes nothing. *)
Lemma insertParts_existing (segs : list string) (rf : bool) (pn : string) :
  forall cur n,
    Forall (everyNode innerDefined) cur ->
    descend segs cur = Some n ->
    insertParts segs rf pn cur = cur.
Proof.
  induction segs as [|seg rest IH]; intros cur n Hall Hd; [reflexivity|].
  rewrite descend_cons in Hd.
  destruct (findByName seg cur) as [e|] eqn:Hfind; [|discriminate].
  rewrite (insertParts_found _ _ _ _ _ _ Hfind).
  apply (updateFirst_fixed _ _ _ e Hfind).
  assert (He : everyNode innerDefined e).
  { unfold findByName in Hfind. apply find_some in Hfind as [Hin _].
    rewrite Forall_forall in Hall. now apply Hall. }
  apply everyNode_unfold in He as [Hi Hchildren].
  destruct (inner e) as [children|] eqn:Hie; [|now elim Hi].
  simpl in Hchildren. simpl orEmpty.
  apply withInner_same. rewrite Hie. f_equal.
  destruct rest as [|s' rest']; [reflexivity|].
  symmetry. exact (IH children n Hchildren Hd).
Qed.

(** X6. A project whose path segments already lead to a node below the
    top-level node when it is inserted leaves the tree unchanged: the node
    it names keeps whatever project name it had, or none. *)
Theorem createNodeTree_existing_path
    (projects : WorkspaceProjects) (q : Project) (r n : Node) :
  createNodeTree projects = [r] ->
  descend (pathParts q) (orEmpty (inner r)) = Some n ->
  createNodeTree (projects ++ [q]) = createNodeTree projects.
Proof.
  intros Htree Hd.
  pose proof (createNodeTree_wellBuilt projects) as Hall.
  unfold createNodeTree in *. rewrite fold_left_app. cbn [fold_left].
  rewrite Htree in *. inversion Hall as [|? ? Hr _]; subst.
  apply everyNode_unfold in Hr as [[Hi _] Hchildren].
  unfold createNodeStep.
  destruct (inner r) as [cur|] eqn:Hir; [|reflexivity].
  simpl in Hd, Hchildren.
  rewrite (insertParts_existing (pathParts q) _ _ cur n); [| |exact Hd].
  - now rewrite (withInner_same r cur Hir).
  - eapply Forall_impl; [|exact Hchildren].
    intros m. apply everyNode_weaken. intros k [H _]. exact H.
Qed.

Lemma createNodeTree_existing_path_witness :
  createNodeTree ([Samples.rootProject; Samples.e2e] ++ [Samples.web])
  = createNodeTree [Samples.rootProject; Samples.e2e].
Proof.
  eapply (createNodeTree_existing_path [Samples.rootProject; Samples.e2e] Samples.web);
    reflexivity.
Defined.

(** ** generateFolderTree: one line for each node *)

Lemma countChar_append (c : ascii) (a b : string) :
  countChar c (a +++ b) = countChar c a + countChar c b.
Proof.
  induction a as [|x a IH]; simpl; [reflexivity|]. rewrite IH. lia.
Qed.

Lemma nodeCount_unfold (n : Node) :
  nodeCount n = S (forestCount (orEmpty (inner n))).
Proof.
  destruct n as [[l|] nm pn rt]; reflexivity.
Qed.

Lemma nodeLine_breaks (prefix : string) (isLastItem : bool) (n : Node) :
  lineBreaks prefix = 0 -> singleLineLabels n ->
  lineBreaks (nodeLine prefix isLastItem n) = 1.
Proof.
  intros Hp [Hname Hlabel]. unfold nodeLine, lineBreaks in *.
  destruct (root n).
  - rewrite !countChar_append, Hp.
    destruct (projectName n) as [label|]; [|reflexivity].
    now rewrite (Hlabel label eq_refl).
  - rewrite !countChar_append, Hp, Hname. now destruct isLastItem.
Qed.

Lemma childPrefix_breaks (prefix : string) (isLastItem : bool) (n : Node) :
  lineBreaks prefix = 0 ->
  lineBreaks (prefix +++ childPrefix isLastItem n) = 0.
Proof.
  intros Hp. unfold lineBreaks in *. rewrite countChar_append, Hp.
  unfold childPrefix. destruct isLastItem; [destruct (root n)|]; reflexivity.
Qed.

Lemma renderLoop_breaks (prefix : string) (lastIndex : Z) (nodes : list Node) :
  Forall (fun c => forall pre isLast,
            lineBreaks pre = 0 ->
            lineBreaks (renderNode pre isLast c) = nodeCount c) nodes ->
  lineBreaks prefix = 0 ->
  forall index,
    lineBreaks (renderLoop renderNode prefix lastIndex nodes index)
    = forestCount nodes.
Proof.
  intros Hall Hp. induction Hall as [|c cs Hc _ IH]; intros index; [reflexivity|].
  rewrite renderLoop_cons. unfold lineBreaks in *.
  rewrite countChar_append, (Hc _ _ Hp), IH. reflexivity.
Qed.

Lemma renderNode_breaks (n : Node) :
  everyNode singleLineLabels n ->
  forall prefix isLastItem,
    lineBreaks prefix = 0 ->
    lineBreaks (renderNode prefix isLastItem n) = nodeCount n.
Proof.
  induction n as [n IH] using Node_tree_ind.
  intros Hn prefix isLastItem Hp.
  apply everyNode_unfold in Hn as [Hlabels Hchildren].
  rewrite renderNode_unfold, nodeCount_unfold.
  unfold lineBreaks at 1. rewrite countChar_append.
  fold (lineBreaks (nodeLine prefix isLastItem n)).
  rewrite (nodeLine_breaks _ _ _ Hp Hlabels).
  destruct (inner n) as [[|c cs]|] eqn:Hi; try reflexivity.
  simpl orEmpty in *. simpl. f_equal.
  unfold renderTree. apply renderLoop_breaks; [|now apply childPrefix_breaks].
  rewrite Forall_forall in *. intros k Hk pre isLast Hpre.
  apply IH; auto.
Qed.

(** X7. When no segment name and no project name in the forest breaks a
    line, the text of [generateFolderTree] has exactly one line for every
    node of the forest, after the line of the opening fence. *)
Theorem generateFolderTree_line_count (forest : list Node) :
  Forall (everyNode singleLineLabels) forest ->
  lineBreaks (generateFolderTree forest) = S (forestCount forest).
Proof.
  intros Hall. unfold generateFolderTree, lineBreaks.
  rewrite !countChar_append. change (countChar "010" fence) with 0.
  change (countChar "010" nl) with 1. rewrite Nat.add_0_r. simpl. f_equal.
  apply (renderLoop_breaks "" _ forest); [|reflexivity].
  eapply Forall_impl; [|exact Hall].
  intros n Hn pre isLast Hpre. now apply renderNode_breaks.
Qed.

Lemma generateFolderTree_line_count_witness :
  lineBreaks (generateFolderTree (createNodeTree [Samples.rootProject; Samples.pkgA]))
  = S (forestCount (createNodeTree [Samples.rootProject; Samples.pkgA])).
Proof.
  apply (generateFolderTree_line_count
           (createNodeTree [Samples.rootProject; Samples.pkgA])).
  vm_compute. repeat constructor; intros label [= <-]; reflexivity.
Defined.

(** ** generateDependencyGraph: the grouping loop *)

Lemma truthy_iff (s : string) : Js.truthy s = true <-> s <> "".
Proof. destruct s; simpl; split; congruence. Qed.

Lemma ownGet_In {V} (k : string) (o : JsObject.t V) (v : V) :
  JsObject.ownGet k o = Some v -> In (k, v) o.
Proof.
  induction o as [|[k' v'] o IH]; simpl; [discriminate|].
  destruct (String.eqb_spec k' k) as [->|Hne].
  - intros [= ->]. now left.
  - intros H. right. now apply IH.
Qed.

Lemma ownGet_None {V} (k : string) (o : JsObject.t V) :
  JsObject.ownGet k o = None <-> ~ In k (map fst o).
Proof.
  induction o as [|[k' v'] o IH]; simpl; [tauto|].
  destruct (String.eqb_spec k' k) as [->|Hne].
  - split; [discriminate | intros H; elim H; now left].
  - rewrite IH. tauto.
Qed.

Lemma In_ownGet {V} (k : string) (o : JsObject.t V) (v : V) :
  NoDup (map fst o) -> In (k, v) o -> JsObject.ownGet k o = Some v.
Proof.
  induction o as [|[k' v'] o IH]; simpl; intros Hnd Hin; [contradiction|].
  inversion Hnd as [|? ? Hnotin Hrest]; subst.
  destruct Hin as [[= -> ->]|Hin].
  - now rewrite String.eqb_refl.
  - destruct (String.eqb_spec k' k) as [->|Hne]; [|now apply IH].
    elim Hnotin. apply in_map_iff. now exists (k, v).
Qed.

Lemma ownUpdate_keys {V} (k : string) (f : V -> V) (o : JsObject.t V) :
  map fst (JsObject.ownUpdate k f o) = map fst o.
Proof.
  induction o as [|[k' v'] o IH]; simpl; [reflexivity|].
  destruct (k' =? k); simpl; [reflexivity | now rewrite IH].
Qed.

Lemma ownGet_ownUpdate {V} (k k0 : string) (f : V -> V) (o : JsObject.t V) :
  JsObject.ownGet k0 (JsObject.ownUpdate k f o)
  = if k =? k0 then option_map f (JsObject.ownGet k0 o) else JsObject.ownGet k0 o.
Proof.
  induction o as [|[k' v'] o IH]; simpl; [now destruct (k =? k0)|].
  destruct (String.eqb_spec k' k) as [->|Hne]; simpl.
  - destruct (k =? k0); reflexivity.
  - destruct (String.eqb_spec k' k0) as [->|Hne0].
    + assert (H : (k =? k0) = false) by (apply String.eqb_neq; congruence).
      now rewrite H.
    + exact IH.
Qed.

Lemma ownGet_app {V} (k : string) (o o2 : JsObject.t V) :
  JsObject.ownGet k (o ++ o2)
  = match JsObject.ownGet k o with
    | Some v => Some v
    | None => JsObject.ownGet k o2
    end.
Proof.
  induction o as [|[k' v'] o IH]; simpl; [reflexivity|].
  destruct (k' =? k); [reflexivity | exact IH].
Qed.

Lemma ownUpdate_Forall_keys {V} (Q : string -> Prop) (k : string) (f : V -> V)
    (o : JsObject.t V) :
  Forall (fun e => Q (fst e)) o ->
  Forall (fun e => Q (fst e)) (JsObject.ownUpdate k f o).
Proof.
  intros H. apply Forall_forall. intros e He.
  rewrite Forall_forall in H.
  assert (Hk : In (fst e) (map fst (JsObject.ownUpdate k f o)))
    by (apply in_map; exact He).
  rewrite ownUpdate_keys in Hk. apply in_map_iff in Hk as [e' [<- He']].
  now apply H.
Qed.

Lemma membersOf_cons (k : string) (p : Project) (l : list Project) :
  membersOf k (p :: l)
  = if firstSegment (path p) =? k then p :: membersOf k l else membersOf k l.
Proof. reflexivity. Qed.

Lemma groupInvariant_no_empty_key (o : JsObject.t (list Project)) :
  groupInvariant o -> JsObject.ownGet "" o = None.
Proof.
  intros [_ Hkeys]. apply ownGet_None. intros Hin.
  apply in_map_iff in Hin as [e [He Hin]].
  rewrite Forall_forall in Hkeys. destruct (Hkeys e Hin) as [_ Hne].
  now elim Hne.
Qed.

Lemma groupInvariant_own_not_inherited (o : JsObject.t (list Project))
    (k : string) (v : list Project) :
  groupInvariant o -> JsObject.ownGet k o = Some v -> JsObject.inherited k = false.
Proof.
  intros [_ Hkeys] Hget. apply ownGet_In in Hget.
  rewrite Forall_forall in Hkeys. exact (proj1 (Hkeys _ Hget)).
Qed.

Lemma grouped_single (k : string) (p : Project) (prev : option (list Project)) :
  grouped k [p] prev
  = match prev with
    | Some members =>
        Some (if firstSegment (path p) =? k then members ++ [p] else members)
    | None =>
        if (firstSegment (path p) =? k) && negb (k =? "") then Some [p] else None
    end.
Proof.
  unfold grouped. rewrite membersOf_cons. simpl membersOf.
  destruct prev as [m|].
  - destruct (firstSegment (path p) =? k); [reflexivity | now rewrite app_nil_r].
  - destruct (k =? ""), (firstSegment (path p) =? k); reflexivity.
Qed.

Lemma grouped_cons (k : string) (p : Project) (l : list Project)
    (prev : option (list Project)) :
  grouped k (p :: l) prev = grouped k l (grouped k [p] prev).
Proof.
  rewrite grouped_single. unfold grouped. rewrite membersOf_cons.
  destruct prev as [m|].
  - destruct (firstSegment (path p) =? k); [now rewrite <- app_assoc | reflexivity].
  - destruct (k =? ""); simpl; [now rewrite andb_false_r|].
    rewrite andb_true_r.
    destruct (firstSegment (path p) =? k); reflexivity.
Qed.

(** One iteration of the grouping loop: it throws exactly on an inherited
    key, and otherwise keeps the invariant and extends the group of the
    project's first segment. *)
Lemma groupStep_spec (o : JsObject.t (list Project)) (p : Project) :
  groupInvariant o ->
  if JsObject.inherited (firstSegment (path p))
  then exists msg, groupStep o p = Threw msg
  else exists o1,
      groupStep o p = Returned o1
      /\ groupInvariant o1
      /\ (forall k, JsObject.ownGet k o1 = grouped k [p] (JsObject.ownGet k o))
      /\ map fst o1
         = if Js.truthy (firstSegment (path p))
           then JsSet.add (firstSegment (path p)) (map fst o)
           else map fst o.
Proof.
  intros Hinv. unfold groupStep. cbv zeta.
  set (kp := firstSegment (path p)).
  destruct (JsObject.inherited kp) eqn:Hinh.
  - destruct (String.eqb_spec kp "") as [He|Hne].
    + rewrite He in Hinh. discriminate Hinh.
    + destruct (JsObject.ownGet kp o) as [m0|] eqn:Hget.
      * rewrite (groupInvariant_own_not_inherited o kp m0 Hinv Hget) in Hinh.
        discriminate.
      * eexists. reflexivity.
  - destruct (String.eqb_spec kp "") as [He|Hne].
    + exists o. split; [reflexivity|]. split; [exact Hinv|]. split.
      * intros k. rewrite grouped_single. fold kp. rewrite He.
        destruct (String.eqb_spec "" k) as [<-|Hk'].
        -- now rewrite (groupInvariant_no_empty_key o Hinv).
        -- now destruct (JsObject.ownGet k o).
      * rewrite He. reflexivity.
    + assert (Htr : Js.truthy kp = true) by now apply truthy_iff.
      rewrite Htr. unfold JsSet.add.
      destruct (JsObject.ownGet kp o) as [m0|] eqn:Hget.
      * eexists. split; [reflexivity|]. destruct Hinv as [Hnd Hkeys].
        split; [|split].
        -- split; [now rewrite ownUpdate_keys|].
           now apply (ownUpdate_Forall_keys
                        (fun k => JsObject.inherited k = false /\ k <> "")).
        -- intros k. rewrite ownGet_ownUpdate, grouped_single. fold kp.
           destruct (String.eqb_spec kp k) as [<-|Hk].
           ++ rewrite Hget. reflexivity.
           ++ now destruct (JsObject.ownGet k o).
        -- rewrite ownUpdate_keys.
           assert (Hhas : JsSet.has kp (map fst o) = true).
           { apply has_In. apply ownGet_In in Hget.
             apply in_map_iff. now exists (kp, m0). }
           now rewrite Hhas.
      * exists (o ++ [(kp, [p])]). split; [reflexivity|].
        pose proof (proj1 (ownGet_None kp o) Hget) as Hnotin.
        destruct Hinv as [Hnd Hkeys]. split; [|split].
        -- split.
           ++ rewrite map_app. simpl. apply NoDup_app; [exact Hnd | | ].
              ** repeat constructor. intros [].
              ** intros a Ha [Hx|[]]. subst a. contradiction.
           ++ apply Forall_app. split; [exact Hkeys|].
              constructor; [|constructor]. simpl. now split.
        -- intros k. rewrite ownGet_app, grouped_single. fold kp.
           simpl JsObject.ownGet.
           destruct (JsObject.ownGet k o) as [m|] eqn:Hk.
           ++ destruct (String.eqb_spec kp k) as [<-|Hk']; [congruence|reflexivity].
           ++ destruct (String.eqb_spec kp k) as [<-|Hk']; [|reflexivity].
              apply String.eqb_neq in Hne. now rewrite Hne.
        -- rewrite map_app. simpl.
           assert (Hhas : JsSet.has kp (map fst o) = false).
           { destruct (JsSet.has kp (map fst o)) eqn:E; [|reflexivity].
             apply has_In in E. contradiction. }
           now rewrite Hhas.
Qed.

(** The whole loop from an object that satisfies the invariant. *)
Lemma forEachM_groupStep_spec (l : list Project) :
  forall o,
    groupInvariant o ->
    if existsb (fun p => JsObject.inherited (firstSegment (path p))) l
    then exists msg, forEachM groupStep l o = Threw msg
    else exists o',
        forEachM groupStep l o = Returned o'
        /\ groupInvariant o'
        /\ (forall k, JsObject.ownGet k o' = grouped k l (JsObject.ownGet k o))
        /\ map fst o'
           = fold_left (fun s k => JsSet.add k s)
               (filter Js.truthy (map (fun p => firstSegment (path p)) l))
               (map fst o).
Proof.
  induction l as [|p l IH]; intros o Hinv; cbn [existsb forEachM].
  - exists o. split; [reflexivity|]. split; [exact Hinv|]. split; [|reflexivity].
    intros k. unfold grouped, membersOf. simpl.
    destruct (JsObject.ownGet k o); [now rewrite app_nil_r|].
    now destruct (k =? "").
  - pose proof (groupStep_spec o p Hinv) as Hstep.
    destruct (JsObject.inherited (firstSegment (path p))); cbn [orb].
    + destruct Hstep as [msg ->]. now exists msg.
    + destruct Hstep as [o1 [-> [Hinv1 [Hget1 Hkeys1]]]]. cbn [bind].
      specialize (IH o1 Hinv1).
      destruct (existsb _ l); [exact IH|].
      destruct IH as [o' [Hrun [Hinv' [Hget' Hkeys']]]].
      exists o'. split; [exact Hrun|]. split; [exact Hinv'|]. split.
      * intros k. now rewrite Hget', Hget1, (grouped_cons k p l).
      * rewrite Hkeys', Hkeys1. cbn [map filter].
        destruct (Js.truthy (firstSegment (path p))); reflexivity.
Qed.

Lemma groupInvariant_nil : groupInvariant [].
Proof. split; constructor. Qed.

(** X8. [generateDependencyGraph] throws a [TypeError] exactly when some
    project lies under a first-level directory whose name is that of a
    property every object inherits (such as [constructor] or [toString]);
    for every other project list it returns a text. *)
Theorem generateDependencyGraph_throws (projects : WorkspaceProjects) :
  if hasInheritedSegment projects
  then exists msg, generateDependencyGraph projects = Threw msg
  else exists text, generateDependencyGraph projects = Returned text.
Proof.
  unfold hasInheritedSegment, generateDependencyGraph, groupProjects.
  pose proof (forEachM_groupStep_spec projects [] groupInvariant_nil) as H.
  destruct (existsb _ projects).
  - destruct H as [msg ->]. now exists msg.
  - destruct H as [o [-> _]]. eexists. reflexivity.
Qed.

(** ** Object.entries on the grouping object *)

Lemma In_insertByIndex {V} (n : N) (e : string * V) (l : list (N * (string * V)))
    (x : N * (string * V)) :
  In x (JsObject.insertByIndex n e l) <-> x = (n, e) \/ In x l.
Proof.
  induction l as [|[m e'] l IH]; simpl.
  - intuition.
  - destruct (n <=? m)%N; simpl; [intuition|]. rewrite IH. intuition.
Qed.

Lemma In_indexed {V} (o : JsObject.t V) (n : N) (e : string * V) :
  In (n, e) (JsObject.indexed o)
  <-> In e o /\ JsObject.arrayIndex (fst e) = Some n.
Proof.
  induction o as [|[k v] o IH]; simpl; [tauto|].
  destruct (JsObject.arrayIndex k) as [m|] eqn:Hk.
  - rewrite In_insertByIndex, IH. split.
    + intros [[= -> ->]|[Hin Hidx]]; [split; [now left | exact Hk] | now split; [right|]].
    + intros [[<-|Hin] Hidx].
      * left. simpl in Hidx. congruence.
      * right. now split.
  - rewrite IH. split.
    + intros [Hin Hidx]. split; [now right | exact Hidx].
    + intros [[<-|Hin] Hidx]; [simpl in Hidx; congruence | now split].
Qed.

Lemma entries_In {V} (o : JsObject.t V) (e : string * V) :
  In e (JsObject.entries o) <-> In e o.
Proof.
  unfold JsObject.entries, JsObject.named.
  rewrite in_app_iff, in_map_iff, filter_In. split.
  - intros [[[n e'] [<- Hin]]|[Hin _]]; [|exact Hin].
    now apply In_indexed in Hin.
  - intros Hin. destruct (JsObject.arrayIndex (fst e)) as [n|] eqn:Hidx.
    + left. exists (n, e). split; [reflexivity|]. now apply In_indexed.
    + right. now split.
Qed.

(** X9. When the grouping succeeds, the subgraph blocks are exactly the
    non-empty groups of projects by first path segment: a pair of a key and
    a member list is enumerated if and only if the key is not empty and the
    members are, in listing order, all the projects whose path starts with
    that segment, of which there is at least one. *)
Theorem subgraph_blocks_are_groups
    (projects : WorkspaceProjects) (subgraphs : JsObject.t (list Project))
    (k : string) (members : list Project) :
  groupProjects projects = Returned subgraphs ->
  In (k, members) (JsObject.entries subgraphs)
  <-> k <> "" /\ members <> [] /\ members = membersOf k projects.
Proof.
  unfold groupProjects. intros Hrun.
  pose proof (forEachM_groupStep_spec projects [] groupInvariant_nil) as H.
  destruct (existsb _ projects).
  - destruct H as [msg H]. congruence.
  - destruct H as [o [Ho [[Hnd _] [Hget _]]]].
    assert (o = subgraphs) by congruence. subst o.
    rewrite entries_In. specialize (Hget k). simpl in Hget. unfold grouped in Hget.
    split.
    + intros Hin. rewrite (In_ownGet k subgraphs members Hnd Hin) in Hget.
      destruct (String.eqb_spec k "") as [->|Hk]; [discriminate|].
      destruct (membersOf k projects) as [|m ms]; [discriminate|].
      injection Hget as ->. repeat split; [exact Hk | discriminate].
    + intros [Hk [Hne ->]]. apply ownGet_In. rewrite Hget.
      apply String.eqb_neq in Hk. rewrite Hk.
      destruct (membersOf k projects); [now elim Hne | reflexivity].
Qed.

Lemma subgraph_blocks_are_groups_witness :
  In ("services", [Samples.api; Samples.worker])
     (JsObject.entries
        [("packages", [Samples.core]); ("services", [Samples.api; Samples.worker])])
  <-> "services" <> ""
      /\ [Samples.api; Samples.worker] <> []
      /\ [Samples.api; Samples.worker]
         = membersOf "services" [Samples.core; Samples.api; Samples.worker].
Proof.
  apply (subgraph_blocks_are_groups [Samples.core; Samples.api; Samples.worker]).
  reflexivity.
Defined.

Lemma groupProjects_lookup (projects : WorkspaceProjects)
    (subgraphs : JsObject.t (list Project)) :
  groupProjects projects = Returned subgraphs ->
  NoDup (map fst subgraphs)
  /\ (forall k, JsObject.ownGet k subgraphs = grouped k projects None)
  /\ map fst subgraphs = subgraphKeys projects.
Proof.
  unfold groupProjects. intros Hrun.
  pose proof (forEachM_groupStep_spec projects [] groupInvariant_nil) as H.
  destruct (existsb _ projects).
  - destruct H as [msg H]. congruence.
  - destruct H as [o [Ho [[Hnd _] [Hget Hkeys]]]].
    assert (o = subgraphs) by congruence. subst o.
    split; [exact Hnd|]. split; [exact Hget | exact Hkeys].
Qed.

Lemma named_keys {V} (o : JsObject.t V) :
  map fst (JsObject.named o) = filter (fun k => negb (isIndexKey k)) (map fst o).
Proof.
  unfold JsObject.named, isIndexKey.
  induction o as [|[k v] o IH]; simpl; [reflexivity|].
  destruct (JsObject.arrayIndex k); simpl; now rewrite IH.
Qed.

Lemma insertByIndex_perm {V} (n : N) (e : string * V)
    (l : list (N * (string * V))) :
  Permutation (JsObject.insertByIndex n e l) ((n, e) :: l).
Proof.
  induction l as [|[m e'] l IH]; simpl; [reflexivity|].
  destruct (n <=? m)%N; [reflexivity|].
  rewrite IH. apply perm_swap.
Qed.

Lemma indexed_keys_perm {V} (o : JsObject.t V) :
  Permutation (map (fun ie => fst (snd ie)) (JsObject.indexed o))
    (filter isIndexKey (map fst o)).
Proof.
  unfold isIndexKey.
  induction o as [|[k v] o IH]; simpl; [reflexivity|].
  destruct (JsObject.arrayIndex k) as [n|]; [|exact IH].
  rewrite (Permutation_map _ (insertByIndex_perm n (k, v) (JsObject.indexed o))).
  simpl. now constructor.
Qed.

Lemma insertByIndex_sorted {V} (n : N) (e : string * V)
    (l : list (N * (string * V))) :
  StronglySorted (fun a b => (fst a <= fst b)%N) l ->
  StronglySorted (fun a b => (fst a <= fst b)%N) (JsObject.insertByIndex n e l).
Proof.
  induction l as [|[m e'] l IH]; simpl; intros Hs.
  - repeat constructor.
  - inversion Hs as [|? ? Hrest Hall]; subst.
    destruct (N.leb_spec n m) as [Hle|Hgt].
    + constructor; [exact Hs|]. constructor; [exact Hle|].
      eapply Forall_impl; [|exact Hall]. simpl. intros x Hx. lia.
    + constructor; [now apply IH|].
      apply Forall_forall. intros x Hx. apply In_insertByIndex in Hx as [->|Hx].
      * simpl. lia.
      * rewrite Forall_forall in Hall. now apply Hall.
Qed.

Lemma indexed_sorted {V} (o : JsObject.t V) :
  StronglySorted (fun a b => (fst a <= fst b)%N) (JsObject.indexed o).
Proof.
  induction o as [|[k v] o IH]; simpl; [constructor|].
  destruct (JsObject.arrayIndex k); [now apply insertByIndex_sorted | exact IH].
Qed.

Lemma indexed_keys_sorted {V} (o : JsObject.t V) :
  StronglySorted (fun a b => (indexValue a <= indexValue b)%N)
    (map (fun ie => fst (snd ie)) (JsObject.indexed o)).
Proof.
  assert (Hval : forall ie, In ie (JsObject.indexed o) ->
                   indexValue (fst (snd ie)) = fst ie).
  { intros [n e] Hin. apply In_indexed in Hin as [_ Hidx].
    unfold indexValue. simpl. now rewrite Hidx. }
  pose proof (indexed_sorted o) as Hs.
  induction Hs as [|ie l Hs IH Hall]; simpl; [constructor|].
  constructor.
  - apply IH. intros x Hx. apply Hval. now right.
  - rewrite Forall_map. rewrite Forall_forall in *. intros x Hx.
    rewrite (Hval ie (or_introl eq_refl)), (Hval x (or_intror Hx)).
    now apply Hall.
Qed.

Lemma entries_keys {V} (o : JsObject.t V) :
  map fst (JsObject.entries o)
  = map (fun ie => fst (snd ie)) (JsObject.indexed o)
    ++ filter (fun k => negb (isIndexKey k)) (map fst o).
Proof.
  unfold JsObject.entries. now rewrite map_app, map_map, named_keys.
Qed.

(** X10. When the grouping succeeds, the subgraph blocks come in this order:
    first the keys that are array indices (decimal numbers below 2^32 - 1
    without leading zero), in ascending numeric order, then the other keys
    in the order in which their directory first occurs in the project
    list. *)
Theorem subgraph_block_order
    (projects : WorkspaceProjects) (subgraphs : JsObject.t (list Project)) :
  groupProjects projects = Returned subgraphs ->
  exists numeric,
    map fst (JsObject.entries subgraphs)
    = numeric ++ filter (fun k => negb (isIndexKey k)) (subgraphKeys projects)
    /\ Permutation numeric (filter isIndexKey (subgraphKeys projects))
    /\ StronglySorted (fun a b => (indexValue a <= indexValue b)%N) numeric.
Proof.
  intros Hrun.
  destruct (groupProjects_lookup _ _ Hrun) as [_ [_ Hkeys]].
  exists (map (fun ie => fst (snd ie)) (JsObject.indexed subgraphs)).
  rewrite <- Hkeys. split; [apply entries_keys|].
  split; [apply indexed_keys_perm | apply indexed_keys_sorted].
Qed.

Lemma subgraph_block_order_witness :
  exists numeric,
    map fst (JsObject.entries
               [("packages", [Samples.core]); ("10", [MoreSamples.ten]);
                ("2", [MoreSamples.two])])
    = numeric
      ++ filter (fun k => negb (isIndexKey k))
           (subgraphKeys [Samples.core; MoreSamples.ten; MoreSamples.two])
    /\ Permutation numeric
         (filter isIndexKey
            (subgraphKeys [Samples.core; MoreSamples.ten; MoreSamples.two]))
    /\ StronglySorted (fun a b => (indexValue a <= indexValue b)%N) numeric.
Proof.
  apply (subgraph_block_order [Samples.core; MoreSamples.ten; MoreSamples.two]).
  reflexivity.
Defined.

(** ** generateDependencyGraph: edges lead to declared subgraphs *)








(** ** Edge statements as printed *)







Arguments Js.ws1 : simpl never.
Arguments Js.ws2 : simpl never.
Arguments Js.ws3 : simpl never.























(** ** generateDependencyGraph: dependencies that leave no trace *)

Lemma live_resolved_kept (projects : WorkspaceProjects) (deps : list string) :
  filter Js.truthy
    (map (resolveDependency projects) (filter (resolvesToSubgraph projects) deps))
  = filter Js.truthy (map (resolveDependency projects) deps).
Proof.
  unfold resolvesToSubgraph.
  induction deps as [|d deps IH]; simpl; [reflexivity|].
  destruct (Js.truthy (resolveDependency projects d)) eqn:Hd; simpl.
  - now rewrite Hd, IH.
  - exact IH.
Qed.

(** X12. A dependency that resolves to a project without a first path
    segment (the root project) or to no project at all leaves no trace: the
    graph text equals the text of the same workspace with every such
    dependency removed. *)
Theorem root_dependencies_dropped (projects : WorkspaceProjects) :
  generateDependencyGraph (map (keepSubgraphDependencies projects) projects)
  = generateDependencyGraph projects.
Proof.
  apply generateDependencyGraph_relabel.
  - reflexivity.
  - reflexivity.
  - intros p. unfold keepSubgraphDependencies. cbn [dependencies devDependencies].
    rewrite !map_app, !filter_app, !live_resolved_kept. reflexivity.
Qed.

(** X13. The graph does not tell development dependencies from
    dependencies: the text equals the text of the same workspace with each
    project's development dependencies appended to its dependencies. *)
Theorem devDependencies_count_as_dependencies (projects : WorkspaceProjects) :
  generateDependencyGraph (map mergeDevDependencies projects)
  = generateDependencyGraph projects.
Proof.
  apply generateDependencyGraph_relabel.
  - reflexivity.
  - reflexivity.
  - intros p. unfold mergeDevDependencies. cbn [dependencies devDependencies].
    now rewrite app_nil_r.
Qed.

(** ** getPnpmWorkspaceProjects: what the caller receives *)

Lemma mapM_Forall2 {A B} (f : A -> Outcome B) (xs : list A) :
  forall ys, mapM f xs = Returned ys ->
             Forall2 (fun x y => f x = Returned y) xs ys.
Proof.
  induction xs as [|x xs IH]; simpl; intros ys H.
  - injection H as <-. constructor.
  - destruct (f x) as [y|msg] eqn:Hx; simpl in H; [|discriminate].
    destruct (mapM f xs) as [ys'|msg]; simpl in H; [|discriminate].
    injection H as <-. constructor; [exact Hx | now apply IH].
Qed.

Lemma mapM_Threw {A B} (f : A -> Outcome B) (xs : list A) (x : A) :
  In x xs -> (exists msg, f x = Threw msg) -> exists msg, mapM f xs = Threw msg.
Proof.
  intros Hin [msg Hx]. induction xs as [|a xs IH]; [contradiction|].
  simpl. destruct (f a) as [y|msg'] eqn:Ha; simpl; [|now exists msg'].
  destruct Hin as [->|Hin]; [congruence|].
  destruct (IH Hin) as [msg'' ->]. now exists msg''.
Qed.

Lemma each_Forall2 {A B} (v : A -> option B) (xs : list A) :
  forall ys, Zod.each v xs = Some ys -> Forall2 (fun x y => v x = Some y) xs ys.
Proof.
  induction xs as [|x xs IH]; simpl; intros ys H.
  - injection H as <-. constructor.
  - destruct (v x) as [y|] eqn:Hx; [|discriminate].
    destruct (Zod.each v xs) as [ys'|]; [|discriminate].
    injection H as <-. constructor; [exact Hx | now apply IH].
Qed.

Lemma stringMin1_truthy (j : Json) (s : string) :
  Zod.stringMin1 j = Some s -> Js.truthy s = true.
Proof.
  destruct j; simpl; try discriminate.
  destruct (Js.truthy s0) eqn:E; [|discriminate]. now intros [= <-].
Qed.

Lemma workspaceEntry_named (j : Json) (e : WorkspaceEntry) :
  workspaceEntrySchema j = Some e -> Js.truthy (pkgName e) = true.
Proof.
  destruct j as [| | | |items|members]; try discriminate.
  unfold workspaceEntrySchema.
  destruct (Zod.requiredField Zod.stringMin1 "name" members) as [n|] eqn:Hn;
    [|discriminate].
  destruct (Zod.optionalField Zod.string_ "version" members); [|discriminate].
  destruct (Zod.requiredField Zod.stringMin1 "path" members); [|discriminate].
  destruct (Zod.optionalField Zod.boolean "private" members); [|discriminate].
  destruct (Zod.optionalField (Zod.record dependencyMetaSchema) "dependencies" members);
    [|discriminate].
  destruct (Zod.optionalField (Zod.record dependencyMetaSchema) "devDependencies" members);
    [|discriminate].
  intros [= <-]. simpl.
  unfold Zod.requiredField in Hn.
  destruct (JsObject.ownGet "name" members) as [jn|]; [|discriminate].
  exact (stringMin1_truthy _ _ Hn).
Qed.

Lemma split_head_clean (sep : ascii) (s : string) :
  match Js.split sep s with
  | piece :: _ => countChar sep piece = 0
  | [] => True
  end.
Proof.
  induction s as [|c s IH]; simpl; [reflexivity|].
  destruct (Ascii.eqb c sep) eqn:E; [reflexivity|].
  destruct (Js.split sep s) as [|piece pieces]; simpl; rewrite E; [reflexivity|].
  exact IH.
Qed.

Lemma firstSegment_clean (s : string) : countChar "/" (firstSegment s) = 0.
Proof.
  unfold firstSegment. pose proof (split_head_clean "/" s) as H.
  destruct (Js.split "/" s); [reflexivity | exact H].
Qed.

Section WorkspaceResults.

Variable pnpmList : string -> option Json.
Variable readJsonFile : string -> option Json.
Variable pathJoin : string -> string -> string.
Variable pathRelative : string -> string -> string.

Lemma validatePackage_fields (rootPath : string) (pkg : WorkspaceEntry) (p : Project) :
  validatePackage readJsonFile pathJoin pathRelative rootPath pkg = Returned p ->
  name p = pkgName pkg
  /\ namespacePrefix p = firstSegment (pkgName pkg)
  /\ path p = pathRelative rootPath (pkgPath pkg).
Proof.
  unfold validatePackage.
  destruct (readJsonFile (pathJoin (pkgPath pkg) "package.json")) as [j|];
    [|discriminate].
  destruct (packageJsonSchema j); [|discriminate].
  intros [= <-]. repeat split.
Qed.

Lemma validatePackage_rejected (rootPath : string) (pkg : WorkspaceEntry) :
  packageFileRejected readJsonFile pathJoin pkg ->
  exists msg,
    validatePackage readJsonFile pathJoin pathRelative rootPath pkg = Threw msg.
Proof.
  unfold packageFileRejected, validatePackage.
  destruct (readJsonFile (pathJoin (pkgPath pkg) "package.json")) as [j|].
  - intros ->. eexists. reflexivity.
  - intros _. eexists. reflexivity.
Qed.

(** What a non-empty result tells about the listing. *)
Lemma getPnpmWorkspaceProjects_success (rootPath : string) (ps : WorkspaceProjects) :
  getPnpmWorkspaceProjects pnpmList readJsonFile pathJoin pathRelative rootPath
  = Returned ps ->
  ps = []
  \/ exists items packages,
       pnpmList rootPath = Some (JArray items)
       /\ Forall2 (fun j e => workspaceEntrySchema j = Some e) items packages
       /\ Forall2 (fun pkg p =>
                     validatePackage readJsonFile pathJoin pathRelative rootPath pkg
                     = Returned p) packages ps.
Proof.
  unfold getPnpmWorkspaceProjects, readWorkspace.
  destruct (pnpmList rootPath) as [out|]; [|intros [= <-]; now left].
  destruct (WorkspaceProjectSchema out) as [packages|] eqn:Hschema;
    [|intros [= <-]; now left].
  destruct (mapM _ packages) as [validated|msg] eqn:Hmap;
    [|intros [= <-]; now left].
  intros [= <-]. right.
  destruct out as [| | | |items|members]; try discriminate.
  exists items, packages. split; [reflexivity|]. split.
  - now apply each_Forall2.
  - now apply mapM_Forall2.
Qed.

End WorkspaceResults.

(** X14. One package file that cannot be read or fails its schema empties
    the whole result: [getPnpmWorkspaceProjects] returns no project at all,
    not the valid ones, and the command stops without tree or graph. *)
Theorem rejected_package_empties_result
    (pnpmList readJsonFile : string -> option Json)
    (pathJoin pathRelative : string -> string -> string)
    (rootPath : string) (output : Json) (packages : list WorkspaceEntry)
    (pkg : WorkspaceEntry) :
  pnpmList rootPath = Some output ->
  WorkspaceProjectSchema output = Some packages ->
  In pkg packages ->
  packageFileRejected readJsonFile pathJoin pkg ->
  getPnpmWorkspaceProjects pnpmList readJsonFile pathJoin pathRelative rootPath
  = Returned []
  /\ actionBlocks pnpmList readJsonFile pathJoin pathRelative rootPath
     = Returned None.
Proof.
  intros Hlist Hschema Hin Hrej.
  assert (Hget : getPnpmWorkspaceProjects pnpmList readJsonFile pathJoin
                   pathRelative rootPath = Returned []).
  { unfold getPnpmWorkspaceProjects, readWorkspace. rewrite Hlist, Hschema.
    destruct (mapM_Threw _ packages pkg Hin
                (validatePackage_rejected readJsonFile pathJoin pathRelative
                   rootPath pkg Hrej)) as [msg ->].
    reflexivity. }
  split; [exact Hget|]. unfold actionBlocks. now rewrite Hget.
Qed.

Lemma rejected_package_empties_result_witness :
  getPnpmWorkspaceProjects MoreSamples.listing MoreSamples.brokenFiles
    Samples.joinSlash Samples.relativeTo "/repo"
  = Returned []
  /\ actionBlocks MoreSamples.listing MoreSamples.brokenFiles
       Samples.joinSlash Samples.relativeTo "/repo"
     = Returned None.
Proof.
  apply (rejected_package_empties_result MoreSamples.listing MoreSamples.brokenFiles
           Samples.joinSlash Samples.relativeTo "/repo"
           (JArray
              [ JObject [("name", JString "@x/core"); ("path", JString "packages/core")];
                JObject [("name", JString "plain"); ("path", JString "packages/plain")] ])
           [mkWorkspaceEntry "@x/core" "packages/core";
            mkWorkspaceEntry "plain" "packages/plain"]
           (mkWorkspaceEntry "plain" "packages/plain")).
  - reflexivity.
  - reflexivity.
  - right. now left.
  - exact I.
Defined.

(** X15. Every project [getPnpmWorkspaceProjects] returns has a non-empty
    name, and its [namespacePrefix] is the part of the name before the
    first slash: it holds no slash. *)
Theorem returned_projects_named
    (pnpmList readJsonFile : string -> option Json)
    (pathJoin pathRelative : string -> string -> string)
    (rootPath : string) (ps : WorkspaceProjects) :
  getPnpmWorkspaceProjects pnpmList readJsonFile pathJoin pathRelative rootPath
  = Returned ps ->
  Forall (fun p => Js.truthy (name p) = true
                   /\ namespacePrefix p = firstSegment (name p)
                   /\ countChar "/" (namespacePrefix p) = 0) ps.
Proof.
  intros Hget.
  destruct (getPnpmWorkspaceProjects_success _ _ _ _ _ _ Hget)
    as [->|[items [packages [_ [Hentries Hvalid]]]]]; [constructor|].
  assert (Hnames : Forall (fun e => Js.truthy (pkgName e) = true) packages).
  { clear Hvalid. induction Hentries as [|j e js es Hj _ IH]; constructor.
    - exact (workspaceEntry_named j e Hj).
    - exact IH. }
  clear Hentries Hget.
  induction Hvalid as [|pkg p pkgs ps' Hp _ IH]; [constructor|].
  inversion Hnames as [|? ? Hn Hrest]; subst.
  constructor; [|now apply IH].
  destruct (validatePackage_fields _ _ _ _ _ _ Hp) as [Hname [Hprefix _]].
  rewrite Hname, Hprefix. repeat split; [exact Hn | apply firstSegment_clean].
Qed.

Lemma returned_projects_named_witness :
  Forall (fun p => Js.truthy (name p) = true
                   /\ namespacePrefix p = firstSegment (name p)
                   /\ countChar "/" (namespacePrefix p) = 0)
    [mkProject "@x/core" "@x" "packages/core" ["left-pad"] [] None;
     mkProject "plain" "plain" "packages/plain" [] [] None].
Proof.
  apply (returned_projects_named MoreSamples.listing MoreSamples.files
           Samples.joinSlash Samples.relativeTo "/repo").
  reflexivity.
Defined.

(** X16. A non-empty result of [getPnpmWorkspaceProjects] has one project
    for each package of the listing, in the order of the listing, with the
    listed name and the listed path made relative to the root. *)
Theorem returned_projects_follow_listing
    (pnpmList readJsonFile : string -> option Json)
    (pathJoin pathRelative : string -> string -> string)
    (rootPath : string) (output : Json) (packages : list WorkspaceEntry)
    (ps : WorkspaceProjects) :
  pnpmList rootPath = Some output ->
  WorkspaceProjectSchema output = Some packages ->
  getPnpmWorkspaceProjects pnpmList readJsonFile pathJoin pathRelative rootPath
  = Returned ps ->
  ps = []
  \/ (map name ps = map pkgName packages
      /\ map path ps = map (fun pkg => pathRelative rootPath (pkgPath pkg)) packages).
Proof.
  intros Hlist Hschema. unfold getPnpmWorkspaceProjects, readWorkspace.
  rewrite Hlist, Hschema.
  destruct (mapM _ packages) as [validated|msg] eqn:Hmap;
    [|intros [= <-]; now left].
  intros [= <-]. right.
  apply mapM_Forall2 in Hmap. clear Hlist Hschema.
  induction Hmap as [|pkg p pkgs ps' Hp _ IH]; [now split|].
  destruct IH as [IHn IHp].
  destruct (validatePackage_fields _ _ _ _ _ _ Hp) as [Hname [_ Hpath]].
  simpl. now rewrite Hname, Hpath, IHn, IHp.
Qed.

Lemma returned_projects_follow_listing_witness :
  [mkProject "@x/core" "@x" "packages/core" ["left-pad"] [] None;
   mkProject "plain" "plain" "packages/plain" [] [] None] = []
  \/ (map name [mkProject "@x/core" "@x" "packages/core" ["left-pad"] [] None;
                mkProject "plain" "plain" "packages/plain" [] [] None]
      = map pkgName [mkWorkspaceEntry "@x/core" "packages/core";
                     mkWorkspaceEntry "plain" "packages/plain"]
      /\ map path [mkProject "@x/core" "@x" "packages/core" ["left-pad"] [] None;
                   mkProject "plain" "plain" "packages/plain" [] [] None]
         = map (fun pkg => Samples.relativeTo "/repo" (pkgPath pkg))
             [mkWorkspaceEntry "@x/core" "packages/core";
              mkWorkspaceEntry "plain" "packages/plain"]).
Proof.
  apply (returned_projects_follow_listing MoreSamples.listing MoreSamples.files
           Samples.joinSlash Samples.relativeTo "/repo"
           (JArray
              [ JObject [("name", JString "@x/core"); ("path", JString "packages/core")];
                JObject [("name", JString "plain"); ("path", JString "packages/plain")] ]));
    reflexivity.
Defined.

(** ** createNodeTree: every later project has a node *)

Lemma descend_insert_exists (segs : list string) (rf : bool) (pn : string)
    (cur : list Node) :
  segs <> [] ->
  exists n, descend segs (insertParts segs rf pn cur) = Some n.
Proof.
  intros Hne. destruct (descend segs cur) as [n|] eqn:Hd.
  - destruct (descend_insert_kept segs segs rf pn cur n Hd) as [n' [H _]].
    now exists n'.
  - destruct (descend_insert_fresh segs rf pn cur Hne Hd) as [n [H _]].
    now exists n.
Qed.

(** X17. No project after the first is lost from the tree: whatever the
    list, below the single top-level node there is a node at the path of
    every later project, reached segment by segment. *)
Theorem later_projects_have_nodes (p0 q : Project) (pre post : list Project) :
  exists r n,
    createNodeTree (p0 :: pre ++ q :: post) = [r]
    /\ descend (pathParts q) (orEmpty (inner r)) = Some n.
Proof.
  destruct (createNodeTree_shape (p0 :: pre)) as [Hnil|[r0 [Hr0 Hwb]]].
  - destruct (createNodeTree_single_top_helper p0 pre) as [r Hr]. congruence.
  - apply everyNode_unfold in Hwb as [[Hi _] _].
    destruct r0 as [[cur|] nm pn rt]; [|now elim Hi].
    assert (Htree : createNodeTree (p0 :: pre ++ q :: post)
                    = [mkNode (Some (fold_left insertProject (q :: post) cur)) nm pn rt]).
    { unfold createNodeTree in *.
      change (p0 :: pre ++ q :: post) with ((p0 :: pre) ++ q :: post).
      rewrite fold_left_app, Hr0. apply fold_createNodeStep_single. }
    destruct (descend_insert_exists (pathParts q) (isRootPath q) (name q) cur
                (split_nonempty _ _)) as [n Hn].
    destruct (descend_fold_kept (pathParts q) post _ n Hn) as [n' [Hn' _]].
    eexists. exists n'. split; [exact Htree | exact Hn'].
Qed.

(** ** generateTechStackWithAI: the external package list *)

Lemma fold_add_In (xs : list string) :
  forall s x,
    In x (fold_left (fun s d => JsSet.add d s) xs s) <-> In x xs \/ In x s.
Proof.
  induction xs as [|a xs IH]; intros s x; simpl; [tauto|].
  rewrite IH. unfold JsSet.add.
  destruct (JsSet.has a s) eqn:E.
  - apply has_In in E. split; [tauto|].
    intros [[<-|H]|H]; tauto.
  - rewrite in_app_iff. simpl. tauto.
Qed.

Lemma firstn_In_full {A} (n : nat) (l : list A) (x : A) :
  In x (firstn n l) -> In x l.
Proof.
  intros H. rewrite <- (firstn_skipn n l). apply in_or_app. now left.
Qed.

Lemma firstn_NoDup {A} (n : nat) (l : list A) : NoDup l -> NoDup (firstn n l).
Proof.
  intros H. rewrite <- (firstn_skipn n l) in H.
  exact (NoDup_app_remove_r _ _ H).
Qed.

Lemma internalPrefixes_has (data : WorkspaceProjects) (x : string) :
  JsSet.has x (internalPrefixes data) = true
  <-> exists p, In p data /\ namespacePrefix p = x.
Proof.
  unfold internalPrefixes. rewrite has_In, fold_add_In, in_map_iff. simpl.
  split.
  - intros [[p [Hp Hin]]|[]]. now exists p.
  - intros [p [Hin Hp]]. left. now exists p.
Qed.

Lemma externalOf_In (prefixes : list string) (p : Project) (d : string) :
  In d (externalOf prefixes p)
  <-> In d (dependencies p ++ devDependencies p)
      /\ isExternalName prefixes d = true.
Proof.
  unfold externalOf. rewrite !in_app_iff, !filter_In. tauto.
Qed.

Lemma externalName_iff (data : WorkspaceProjects) (d : string) :
  isExternalName (internalPrefixes data) d = true
  <-> forall p, In p data -> firstSegment d <> namespacePrefix p.
Proof.
  unfold isExternalName. rewrite negb_true_iff. split.
  - intros Hno p Hp Heq.
    assert (H : JsSet.has (firstSegment d) (internalPrefixes data) = true)
      by (apply internalPrefixes_has; now exists p).
    congruence.
  - intros Hall. destruct (JsSet.has _ _) eqn:E; [|reflexivity].
    apply internalPrefixes_has in E as [p [Hp Heq]].
    elim (Hall p Hp). now symmetry.
Qed.

(** X18. The external package list of the tech stack prompt holds no name
    twice and at most 500 names; each of them is declared as dependency or
    development dependency by some project, and its part before the first
    slash is the [namespacePrefix] of no project. *)
Theorem externalPackages_sound (data : WorkspaceProjects) :
  NoDup (externalPackages data)
  /\ length (externalPackages data) <= 500
  /\ forall d, In d (externalPackages data) ->
       (exists p, In p data /\ In d (dependencies p ++ devDependencies p))
       /\ (forall p, In p data -> firstSegment d <> namespacePrefix p).
Proof.
  unfold externalPackages. cbv zeta. split; [|split].
  - apply firstn_NoDup, fold_add_NoDup. constructor.
  - apply firstn_le_length.
  - intros d Hd. apply firstn_In_full in Hd.
    apply fold_add_In in Hd as [Hd|[]].
    apply in_flat_map in Hd as [p [Hp Hd]].
    apply externalOf_In in Hd as [Hdep Hext].
    split; [now exists p | now apply externalName_iff].
Qed.

(** X19. Below the limit nothing is left out: a dependency or development
    dependency of a project whose part before the first slash is the
    [namespacePrefix] of no project is in the external package list, unless
    the list has reached its 500 names. *)
Theorem externalPackages_complete
    (data : WorkspaceProjects) (p : Project) (d : string) :
  In p data ->
  In d (dependencies p ++ devDependencies p) ->
  (forall q, In q data -> firstSegment d <> namespacePrefix q) ->
  In d (externalPackages data) \/ length (externalPackages data) = 500.
Proof.
  intros Hp Hd Hext. unfold externalPackages. cbv zeta.
  set (full := fold_left (fun s x => JsSet.add x s)
                 (flat_map (externalOf (internalPrefixes data)) data) []).
  assert (Hin : In d full).
  { apply fold_add_In. left. apply in_flat_map. exists p. split; [exact Hp|].
    apply externalOf_In. split; [exact Hd | now apply externalName_iff]. }
  destruct (Nat.le_gt_cases (length full) 500) as [Hle|Hgt].
  - left. now rewrite firstn_all2 by exact Hle.
  - right. apply firstn_length_le. lia.
Qed.

Lemma externalPackages_complete_witness :
  In "react" (externalPackages [Samples.core; MoreSamples.scoped; MoreSamples.tooling])
  \/ length (externalPackages [Samples.core; MoreSamples.scoped; MoreSamples.tooling])
     = 500.
Proof.
  apply (externalPackages_complete
           [Samples.core; MoreSamples.scoped; MoreSamples.tooling]
           MoreSamples.scoped "react").
  - right. now left.
  - now left.
  - intros q [<-|[<-|[<-|[]]]]; discriminate.
Defined.

(** ** Edge statements for directories that differ by white space *)

(** C4. For [caller] and [sibling] under the directory [a] and [spaced]
    under the directory named [a] followed by a space, where [caller]
    depends on both: the key [a] contributed by the dependency on [sibling]
    is filtered out, the key of [spaced] is kept, and the trimming of the
    joined targets prints it as [a], so the text returned holds the edge
    statement from [a] to [a]. *)
Theorem self_edge_printed :
  In ("a", ["a"; "a "])
     (subgraphDependencies
        [MoreSamples.caller; MoreSamples.sibling; MoreSamples.spaced])
  /\ edgeTargets "a" ["a"; "a "] = ["a "]
  /\ edgeStatement ("a", ["a"; "a "]) = "  a --> a" +++ nl
  /\ printedTargets "a" ["a"; "a "] = ["a"]
  /\ generateDependencyGraph
       [MoreSamples.caller; MoreSamples.sibling; MoreSamples.spaced]
     = Returned
         (fence +++ "mermaid" +++ nl
          +++ "graph TD" +++ nl
          +++ "  subgraph a" +++ nl
          +++ "     caller[" +++ dquote +++ "caller" +++ dquote +++ "]" +++ nl
          +++ "     sibling[" +++ dquote +++ "sibling" +++ dquote +++ "]" +++ nl
          +++ "  end" +++ nl
          +++ "  subgraph a " +++ nl
          +++ "     spaced[" +++ dquote +++ "spaced" +++ dquote +++ "]" +++ nl
          +++ "  end" +++ nl
          +++ "  a --> a" +++ nl
          +++ fence).
Proof.
  split; [vm_compute; tauto|]. repeat split; reflexivity.
Qed.

(** C6. For [first] and [second] under the directory [a], both depending
    on [target] under [b], and [second] also on [other] under the directory
    named [b] followed by a space: the set of [a] holds the key [b] once
    and the key of [other] once, and the trimming of the joined targets
    prints the latter as [b], so the edge statement of [a] in the text
    returned names the target [b] twice. *)
Theorem duplicate_target_printed :
  In ("a", ["b"; "b "])
     (subgraphDependencies
        [MoreSamples.first; MoreSamples.second; MoreSamples.target; MoreSamples.other])
  /\ edgeTargets "a" ["b"; "b "] = ["b"; "b "]
  /\ edgeStatement ("a", ["b"; "b "]) = "  a --> b & b" +++ nl
  /\ printedTargets "a" ["b"; "b "] = ["b"; "b"]
  /\ generateDependencyGraph
       [MoreSamples.first; MoreSamples.second; MoreSamples.target; MoreSamples.other]
     = Returned
         (fence +++ "mermaid" +++ nl
          +++ "graph TD" +++ nl
          +++ "  subgraph a" +++ nl
          +++ "     first[" +++ dquote +++ "first" +++ dquote +++ "]" +++ nl
          +++ "     second[" +++ dquote +++ "second" +++ dquote +++ "]" +++ nl
          +++ "  end" +++ nl
          +++ "  subgraph b" +++ nl
          +++ "     target[" +++ dquote +++ "target" +++ dquote +++ "]" +++ nl
          +++ "  end" +++ nl
          +++ "  subgraph b " +++ nl
          +++ "     other[" +++ dquote +++ "other" +++ dquote +++ "]" +++ nl
          +++ "  end" +++ nl
          +++ "  a --> b & b" +++ nl
          +++ fence).
Proof.
  split; [vm_compute; tauto|]. repeat split; reflexivity.
Qed.
